(** * Message dispatch core: history normalisation, error classification,
      directive parsing, visual pipeline and credential rotation.

    Shallow embedding of [services/geminiService.ts] (the service module with
    its module-level state) and of [processMessageSending] in [App.tsx].

    Conventions of the embedding
    - a JavaScript string is a [string]: a sequence of code units, here the
      code units below 256;
    - an optional field ([image?: string]) is an [option];
    - a value tested for truthiness is tested the way JavaScript does it:
      [undefined], [false] and the empty string are falsy;
    - the remote services (chat backend, one-shot generation, image backend)
      are parameters: what they answer is an input of the model. *)

From Stdlib Require Import String Ascii List Bool Arith Lia.
From Stdlib Require ZArith QArith_base DecimalString.
Import ListNotations.
Open Scope string_scope.
Open Scope list_scope.
Open Scope nat_scope.

(* ------------------------------------------------------------------ *)
(** ** JavaScript string primitives *)

Module Js.

Definition chr (n : nat) : ascii := ascii_of_nat n.
Definition code (c : ascii) : nat := nat_of_ascii c.

Definition LF : ascii := chr 10.
Definition CR : ascii := chr 13.

(** The characters [.] does not match (no [s] flag). *)
Definition isLineTerminator (c : ascii) : bool :=
  Ascii.eqb c LF || Ascii.eqb c CR.

(** [\s], and what [trim] removes. *)
Definition isWhiteSpace (c : ascii) : bool :=
  let n := code c in
  ((9 <=? n) && (n <=? 13)) || (n =? 32) || (n =? 160).

(** [\w] *)
Definition isWordChar (c : ascii) : bool :=
  let n := code c in
  ((48 <=? n) && (n <=? 57)) || ((65 <=? n) && (n <=? 90))
  || (n =? 95) || ((97 <=? n) && (n <=? 122)).

(** A value used as a condition: the empty string is falsy. *)
Definition truthy (s : string) : bool :=
  match s with EmptyString => false | String _ _ => true end.

Definition truthyOpt (o : option string) : bool :=
  match o with Some s => truthy s | None => false end.

(** [a || b] on a possibly undefined string. *)
Definition orElse (o : option string) (d : string) : string :=
  match o with
  | Some s => if truthy s then s else d
  | None => d
  end.

(** [p] removed from the front of [s], when [s] starts with it. *)
Fixpoint stripPrefix (p s : string) : option string :=
  match p with
  | EmptyString => Some s
  | String a p' =>
      match s with
      | EmptyString => None
      | String b s' => if Ascii.eqb a b then stripPrefix p' s' else None
      end
  end.

Definition startsWith (s p : string) : bool :=
  match stripPrefix p s with Some _ => true | None => false end.

(** [s.includes(p)] *)
Fixpoint includes (s p : string) : bool :=
  if startsWith s p then true
  else match s with
       | EmptyString => false
       | String _ s' => includes s' p
       end.

Definition lowerChar (c : ascii) : ascii :=
  let n := code c in
  if ((65 <=? n) && (n <=? 90))
     || ((192 <=? n) && (n <=? 222) && negb (n =? 215))
  then chr (n + 32) else c.

(** [s.toLowerCase()] *)
Fixpoint toLowerCase (s : string) : string :=
  match s with
  | EmptyString => EmptyString
  | String c s' => String (lowerChar c) (toLowerCase s')
  end.

Fixpoint trimStart (s : string) : string :=
  match s with
  | EmptyString => EmptyString
  | String c s' => if isWhiteSpace c then trimStart s' else s
  end.

Fixpoint trimEnd (s : string) : string :=
  match s with
  | EmptyString => EmptyString
  | String c s' =>
      match trimEnd s' with
      | EmptyString => if isWhiteSpace c then EmptyString else String c EmptyString
      | r => String c r
      end
  end.

(** [s.trim()] *)
Definition trim (s : string) : string := trimEnd (trimStart s).

(** The longest run of characters satisfying [f] at the front of [s], and
    what follows it. *)
Fixpoint span (f : ascii -> bool) (s : string) : string * string :=
  match s with
  | EmptyString => (EmptyString, EmptyString)
  | String c s' =>
      if f c then let (a, b) := span f s' in (String c a, b)
      else (EmptyString, s)
  end.

(** A greedy dot-star group followed by the literal [m], anchored at the
    front of [s]: the capture of the group,
    that is the longest line-terminator-free [t] with [t ++ m] a prefix of
    [s]; [None] when the pattern does not match. *)
Fixpoint greedyUpTo (m s : string) : option string :=
  let here := if startsWith s m then Some EmptyString else None in
  match s with
  | EmptyString => here
  | String c s' =>
      if isLineTerminator c then here
      else match greedyUpTo m s' with
           | Some t => Some (String c t)
           | None => here
           end
  end.

(** A lazy dot-star group followed by the literal [m], anchored at the
    front of [s]: the capture of the group
    (the shortest line-terminator-free [t] with [t ++ m] a prefix of [s])
    and what follows the match. *)
Fixpoint lazyUpTo (m s : string) : option (string * string) :=
  match stripPrefix m s with
  | Some rest => Some (EmptyString, rest)
  | None =>
      match s with
      | EmptyString => None
      | String c s' =>
          if isLineTerminator c then None
          else match lazyUpTo m s' with
               | Some (t, rest) => Some (String c t, rest)
               | None => None
               end
      end
  end.

End Js.

(* ------------------------------------------------------------------ *)
(** ** Data model ([types.ts]) *)

Inductive Role := user | model.

Definition Role_eqb (a b : Role) : bool :=
  match a, b with
  | user, user | model, model => true
  | _, _ => false
  end.

Record Message := mkMessage {
  id : string;
  role : Role;
  text : string;
  image : option string;
  isError : option bool;
  isImageLoading : option bool
}.

Inductive Language := english | manglish.

Definition Language_eqb (a b : Language) : bool :=
  match a, b with
  | english, english | manglish, manglish => true
  | _, _ => false
  end.

Record ApiKeyDef := mkApiKeyDef {
  key_id : string;
  key_label : string;
  key : string
}.

(** The part of a [Content] of the backend's SDK. *)
Inductive Part :=
| TextPart (t : string)
| InlineData (mimeType data : string).

Module Content.
Record t := mk { role : Role; parts : list Part }.
End Content.

Definition flag (o : option bool) : bool :=
  match o with Some b => b | None => false end.

(* ------------------------------------------------------------------ *)
(** ** History normalisation ([formatHistoryForGemini]) *)

(** The first group of [h.image.match(re)], [re] being [data:], a greedy
    dot-star group and [;base64,], anchored at the start. *)
Definition dataUrlMime (img : string) : option string :=
  match Js.stripPrefix "data:" img with
  | Some rest => Js.greedyUpTo ";base64," rest
  | None => None
  end.

(** [h.image.replace(re, empty)], [re] being [data:image/], one or more
    word characters and [;base64,], anchored at the start. *)
Definition stripImagePrefix (img : string) : string :=
  match Js.stripPrefix "data:image/" img with
  | Some rest =>
      let (w, rest') := Js.span Js.isWordChar rest in
      match w, Js.stripPrefix ";base64," rest' with
      | String _ _, Some payload => payload
      | _, _ => img
      end
  | None => img
  end.

(** The [inlineData] part pushed for the image of a user message. *)
Definition imageParts (img : option string) : list Part :=
  match img with
  | Some i =>
      if Js.truthy i && Js.startsWith i "data:" then
        let mt := dataUrlMime i in
        let d := stripImagePrefix i in
        match mt with
        | Some m => if Js.truthy d && Js.truthy m then [InlineData m d] else []
        | None => []
        end
      else []
  | None => []
  end.

Definition textParts (t : string) : list Part :=
  if Js.truthy t then [TextPart t] else [].

(** What one message pushes on [validHistory]. *)
Definition validEntry (h : Message) : list Content.t :=
  if flag (isError h) then []
  else match role h with
       | user =>
           let parts := imageParts (image h) ++ textParts (text h) in
           match parts with
           | [] => []
           | _ :: _ => [Content.mk user parts]
           end
       | model => [Content.mk model [TextPart (Js.orElse (Some (text h)) "...")]]
       end.

Fixpoint validHistory (history : list Message) : list Content.t :=
  match history with
  | [] => []
  | h :: rest => validEntry h ++ validHistory rest
  end.

(** The merge loop: [current] is the turn being grown, [merged] the turns
    already pushed, [rest] the entries [validHistory[i..]] still to visit.
    [current] is a shallow copy, so the parts pushed on it are pushed on the
    entry of [validHistory] it copies as well; the loop never reads that entry
    again. *)
Fixpoint mergeLoop (merged : list Content.t) (current : Content.t)
         (rest : list Content.t) : list Content.t :=
  match rest with
  | [] => merged ++ [current]
  | v :: rest' =>
      if Role_eqb (Content.role v) (Content.role current)
      then mergeLoop merged
             (Content.mk (Content.role current)
                         (Content.parts current ++ Content.parts v)) rest'
      else mergeLoop (merged ++ [current]) v rest'
  end.

Definition mergeTurns (valid : list Content.t) : list Content.t :=
  match valid with
  | [] => []
  | v0 :: rest => mergeLoop [] v0 rest
  end.

(** [while (merged.length > 0 && merged[0].role === 'model') merged.shift()] *)
Fixpoint dropLeadingModel (merged : list Content.t) : list Content.t :=
  match merged with
  | [] => []
  | c :: rest =>
      match Content.role c with
      | model => dropLeadingModel rest
      | user => merged
      end
  end.

Definition placeholderTurn : Content.t := Content.mk model [TextPart "..."].

Definition lastRole (l : list Content.t) : option Role :=
  match rev l with
  | [] => None
  | c :: _ => Some (Content.role c)
  end.

(** [if (merged.length > 1 && merged[merged.length - 1].role === 'user')
      merged.push(placeholder)] *)
Definition closeWithPlaceholder (merged : list Content.t) : list Content.t :=
  if (1 <? List.length merged) then
    match lastRole merged with
    | Some user => merged ++ [placeholderTurn]
    | _ => merged
    end
  else merged.

Definition formatHistoryForGemini (history : list Message) : list Content.t :=
  closeWithPlaceholder (dropLeadingModel (mergeTurns (validHistory history))).

(* ------------------------------------------------------------------ *)
(** ** Error classification ([getErrorMessage] and the [catch] block of
       [sendMessageToEve]) *)

(** A thrown value, as far as [getErrorMessage] looks into it.
    - [ThrownError m]: an instance of [Error] with message [m];
    - [ThrownString s]: a string;
    - [ThrownObject m json str]: any other non-null object; [m] is
      [String(e.message)] when [e.message] is truthy, [json] is
      [JSON.stringify(e)] ([None] when it throws) and [str] is [String(e)];
    - [ThrownOther str]: anything else, [str] being [String(e)]. *)
Inductive Thrown :=
| ThrownError (message : string)
| ThrownString (s : string)
| ThrownObject (message : option string) (json : option string) (str : string)
| ThrownOther (str : string).

Definition getErrorMessage (e : Thrown) : string :=
  match e with
  | ThrownError m => m
  | ThrownString s => s
  | ThrownObject (Some m) _ _ => m
  | ThrownObject None (Some j) _ => j
  | ThrownObject None None str => str
  | ThrownOther str => str
  end.

Inductive ErrorType := QUOTA_EXCEEDED | AUTH_ERROR | GENERAL.

Definition ErrorType_eqb (a b : ErrorType) : bool :=
  match a, b with
  | QUOTA_EXCEEDED, QUOTA_EXCEEDED | AUTH_ERROR, AUTH_ERROR
  | GENERAL, GENERAL => true
  | _, _ => false
  end.

(** The user message and the error type the [catch] block chooses. *)
Definition classify (errorMessageText : string) : string * ErrorType :=
  let lowerError := Js.toLowerCase errorMessageText in
  if Js.includes lowerError "429" || Js.includes lowerError "exhausted"
     || Js.includes lowerError "quota"
  then ("I've hit my usage limit for now (Quota Exceeded).", QUOTA_EXCEEDED)
  else if Js.includes lowerError "403" || Js.includes lowerError "key"
  then ("API key invalid.", AUTH_ERROR)
  else ("Connection interrupted.", GENERAL).

Definition errorTypeOf (e : Thrown) : ErrorType :=
  snd (classify (getErrorMessage e)).

(* ------------------------------------------------------------------ *)
(** ** Directive tags *)

Inductive VisualType := scene | selfie.

(** The tag pattern anchored at the front of [s]: an opening bracket and the
    keyword [kw], then optionally a colon, white space, and a lazy
    dot-star group, then a closing bracket.  The result is the capture of
    the group ([None] when the optional part did not take part) and what
    follows the match.

    The white space is skipped greedily.  Giving some of it back never helps:
    the closing bracket is not white space, so the lazy group would have to
    cross the same characters, and more. *)
Definition matchTagAt (kw s : string) : option (option string * string) :=
  match Js.stripPrefix (String "[" kw) s with
  | None => None
  | Some r =>
      match Js.stripPrefix ":" r with
      | Some r1 =>
          match Js.lazyUpTo "]" (Js.trimStart r1) with
          | Some (cap, rest) => Some (Some cap, rest)
          | None => None
          end
      | None =>
          match Js.stripPrefix "]" r with
          | Some rest => Some (None, rest)
          | None => None
          end
      end
  end.

(** [replyText.match(re)] without the [g] flag: the leftmost match. *)
Fixpoint findTag (kw s : string) : option (option string) :=
  match matchTagAt kw s with
  | Some (cap, _) => Some cap
  | None =>
      match s with
      | EmptyString => None
      | String _ s' => findTag kw s'
      end
  end.

(** [s.replace(re, empty)] with the [g] flag: one scan from the left; a match
    is dropped and the scan resumes after it.  [skip] counts the characters
    of the current match still to drop. *)
Fixpoint removeTagsFrom (kw : string) (skip : nat) (s : string) : string :=
  match s with
  | EmptyString => EmptyString
  | String c s' =>
      match skip with
      | S k => removeTagsFrom kw k s'
      | O =>
          match matchTagAt kw s with
          | Some (_, rest) =>
              removeTagsFrom kw (String.length s' - String.length rest) s'
          | None => String c (removeTagsFrom kw 0 s')
          end
      end
  end.

Definition removeTags (kw s : string) : string := removeTagsFrom kw 0 s.

(** The text shown for a reply: both kinds of tag removed, then trimmed. *)
Definition stripDirectives (replyText : string) : string :=
  Js.trim (removeTags "SCENE" (removeTags "SELFIE" replyText)).

Definition userTriggerWords : list string :=
  ["photo"; "pic"; "selfie"; "image"; "see you"; "show me"; "nude"; "naked";
   "look at you"; "send me"].

Definition isUserRequestingImage (message : string) : bool :=
  existsb (fun word => Js.includes (Js.toLowerCase message) word)
          userTriggerWords.

(** The branch on the directives of a reply (the [if] on
    [genSettings.aiImageGeneration]): the visual prompt, the visual type and
    the new value of the counter. *)
Definition directiveBranch (aiImageGeneration : bool) (message replyText : string)
           (textOnlyMessageCount : nat) : option string * VisualType * nat :=
  let selfieMatch := findTag "SELFIE" replyText in
  let sceneMatch := findTag "SCENE" replyText in
  if aiImageGeneration then
    match selfieMatch with
    | Some cap => (Some (Js.orElse cap "looking at the camera"), selfie, 0)
    | None =>
        match sceneMatch with
        | Some cap =>
            if isUserRequestingImage message || (4 <=? textOnlyMessageCount)
            then (Some (Js.orElse cap "a scenic view from the user's perspective"),
                  scene, 0)
            else (None, scene, S textOnlyMessageCount)
        | None => (None, scene, S textOnlyMessageCount)
        end
    end
  else (None, scene, S textOnlyMessageCount).

Definition endpointMissing (endpoint : option string) : bool :=
  match endpoint with
  | Some e => negb (Js.truthy e) || negb (Js.truthy (Js.trim e))
  | None => true
  end.

Definition apology : string :=
  String Js.LF (String Js.LF
    "(I tried to show you, but my visual cortex isn't connected!)").

(* ------------------------------------------------------------------ *)
(** ** The remote services *)

Definition number := QArith_base.Q.

Record GenerationSettings := mkSettings {
  guidance : number;
  steps : number;
  ipAdapterStrength : number;
  loraStrength : number;
  seed : number;
  randomizeSeed : bool;
  useMagic : bool;
  aiImageGeneration : bool;
  temperature : number;
  topP : number;
  topK : number
}.

(** The instruction sent for rephrasing: one of the two templates, filled with
    the previous visual context and the concept. *)
Record Instruction := mkInstruction {
  instr_type : VisualType;
  instr_context : string;
  instr_concept : string
}.

(** A chat handle: what [ai.chats.create] was given. *)
Record Chat := mkChat {
  chat_apiKey : string;
  chat_language : Language;
  chat_away : option string;
  chat_sampling : option GenerationSettings;
  chat_history : list Content.t
}.

Inductive MsgContent :=
| PlainMessage (message : string)
| MessageWithImage (data mimeType message : string).

(** A part of the first candidate of a generation response. *)
Inductive ResponsePart :=
| RInline (mimeType : option string) (data : string)
| RText (t : string)
| ROther.

(** The first element of the data the image backend returns. *)
Inductive GradioItem :=
| ItemObject (url : option string)
| ItemString (s : string)
| ItemOther.

(** What the outside answers.  The first argument of a request is its
    number (requests are counted in the service state), so that two requests
    with the same arguments may be answered differently. *)
Record Backend := mkBackend {
  env_API_KEY : option string;
  acceptsHistory : list Content.t -> bool;
  models_generateText : nat -> string -> Instruction -> Thrown + option string;
  models_generateImage :
    nat -> string -> MsgContent -> Thrown + list ResponsePart;
  chat_sendMessage : nat -> Chat -> MsgContent -> Thrown + option string;
  gradio_predict :
    nat -> string -> string -> GenerationSettings -> Thrown + list GradioItem
}.

(* ------------------------------------------------------------------ *)
(** ** The service module and its state *)

Record Service := mkService {
  chatSession : option Chat;
  currentLanguage : Language;
  currentApiKey : option string;
  textOnlyMessageCount : nat;
  requests : nat  (* ghost: the requests made to the outside so far *)
}.

(** The module as loaded. *)
Definition freshService : Service := mkService None english None 4 0.

Definition setCount (n : nat) (st : Service) : Service :=
  mkService (chatSession st) (currentLanguage st) (currentApiKey st) n
            (requests st).

Definition dropSession (st : Service) : Service :=
  mkService None (currentLanguage st) None (textOnlyMessageCount st)
            (requests st).

(** The number of the next request, counted. *)
Definition nextRequest (st : Service) : nat * Service :=
  (requests st,
   mkService (chatSession st) (currentLanguage st) (currentApiKey st)
             (textOnlyMessageCount st) (S (requests st))).

Module EveResponse.
Record t := mk {
  text : string;
  image : option string;
  visualPrompt : option string;
  visualType : option VisualType;
  isError : option bool;
  errorMessage : option string;
  errorType : option ErrorType;
  enhancedPrompt : option string
}.
End EveResponse.

Definition IMAGE_QUALITY_SUFFIX : string := ", 8k, best quality, masterpiece".

Definition neutralPortrait : string :=
  "A photorealistic portrait of a beautiful Indian woman, neutral expression.".

(** Comparison under the [i] flag, against the ASCII patterns used here. *)
Fixpoint stripPrefixCI (p s : string) : option string :=
  match p with
  | EmptyString => Some s
  | String a p' =>
      match s with
      | EmptyString => None
      | String b s' =>
          if Ascii.eqb (Js.lowerChar a) (Js.lowerChar b)
          then stripPrefixCI p' s' else None
      end
  end.

(** The echoed label removed from the start of the rephrased text: the
    alternatives are tried in the order of the pattern. *)
Definition stripEcho (s : string) : string :=
  let try := fun p r =>
    match r with
    | Some _ => r
    | None => stripPrefixCI p s
    end in
  match try "OUTPUT:" (try "SCENE:" (try "YOUR SCENE:" (try "YOUR OUTPUT:" None)))
  with
  | Some rest => rest
  | None => s
  end.

Fixpoint newlinesToSpaces (s : string) : string :=
  match s with
  | EmptyString => EmptyString
  | String c s' =>
      String (if Ascii.eqb c Js.LF then " "%char else c) (newlinesToSpaces s')
  end.

Fixpoint removeFences (s : string) : string :=
  match s with
  | String "`" (String "`" (String "`" rest)) => removeFences rest
  | String c s' => String c (removeFences s')
  | EmptyString => EmptyString
  end.

(** What [rephrasePromptForGradio] makes of [response.text]. *)
Definition cleanRephrased (responseText : option string) : string :=
  let result := option_map Js.trim responseText in
  let cleanResult :=
    match result with
    | Some r => if Js.truthy r then newlinesToSpaces (stripEcho r) else ""
    | None => ""
    end in
  let cleanResult := Js.trim (removeFences cleanResult) in
  if Js.truthy cleanResult && (5 <? String.length cleanResult)
  then cleanResult else neutralPortrait.

Record RenderResult := mkRender {
  imageUrl : string;
  enhancedPrompt : string
}.

(** What is returned out of the data of the image backend: the [url] of its
    first element when it has a truthy one, or that element when it is a
    string. *)
Definition firstImage (data : list GradioItem) : option string :=
  match data with
  | ItemObject (Some u) :: _ => if Js.truthy u then Some u else None
  | ItemString s :: _ => Some s
  | _ => None
  end.

Section ServiceModule.

Variable B : Backend.

Definition getApiKey (providedKey : option string) : string :=
  let fromEnv := Js.orElse (env_API_KEY B) "" in
  match providedKey with
  | Some k =>
      if Js.truthy k && (0 <? String.length (Js.trim k)) then k else fromEnv
  | None => fromEnv
  end.

(** The handle is created with the normalised history; when that fails it is
    created again without history and without sampling settings.  The
    construction of the client itself is taken to succeed. *)
Definition initializeChat (history : list Message) (apiKey : option string)
           (settings : option GenerationSettings)
           (awayDurationString : option string) (language : Language)
           (st : Service) : Service :=
  let key := getApiKey apiKey in
  let formattedHistory := formatHistoryForGemini history in
  let chat :=
    if acceptsHistory B formattedHistory
    then mkChat key language awayDurationString settings formattedHistory
    else mkChat key language awayDurationString None [] in
  mkService (Some chat) language (Some key) (textOnlyMessageCount st)
            (requests st).

Definition startChatWithHistory := initializeChat.

(** Stage 1.  A failure of the request is caught here: the neutral portrait
    is returned in its place. *)
Definition rephrasePromptForGradio (userMessage : string)
           (apiKey : option string) (previousVisualContext : option string)
           (type : VisualType) (st : Service) : string * Service :=
  let key := getApiKey apiKey in
  let instruction :=
    mkInstruction type (Js.orElse previousVisualContext "None") userMessage in
  let (n, st1) := nextRequest st in
  match models_generateText B n key instruction with
  | inr responseText => (cleanRephrased responseText, st1)
  | inl _ => (neutralPortrait, st1)
  end.

(** Stage 2.  Every failure leaves as an [Error] carrying a message. *)
Definition generateWithGradio (prompt : string) (endpoint : option string)
           (settings : GenerationSettings) (st : Service)
  : (string + string) * Service :=
  match endpoint with
  | Some ep =>
      if endpointMissing endpoint
      then (inl "Gradio endpoint not configured.", st)
      else
        let (n, st1) := nextRequest st in
        match gradio_predict B n ep prompt settings with
        | inl e => (inl (getErrorMessage e), st1)
        | inr data =>
            match firstImage data with
            | Some u => (inr u, st1)
            | None =>
                (inl (getErrorMessage (ThrownError "No image URL returned.")),
                 st1)
            end
        end
  | None => (inl "Gradio endpoint not configured.", st)
  end.

(** The two stages; the result is [inl message] when the call fails with
    [Error(message)]. *)
Definition generateVisualSelfie (description : string)
           (apiKey : option string) (gradioEndpoint : option string)
           (settings : GenerationSettings) (previousVisualContext : string)
           (type : VisualType) (st : Service)
  : (string + RenderResult) * Service :=
  let (enhancedDescription, st1) :=
    rephrasePromptForGradio description apiKey (Some previousVisualContext)
                            type st in
  let fullPrompt := (enhancedDescription ++ IMAGE_QUALITY_SUFFIX)%string in
  match generateWithGradio fullPrompt gradioEndpoint settings st1 with
  | (inr url, st2) => (inr (mkRender url enhancedDescription), st2)
  | (inl m, st2) => (inl (getErrorMessage (ThrownError m)), st2)
  end.

Fixpoint processImageParts (parts : list ResponsePart)
         (image : option string) (text : string) : option string * string :=
  match parts with
  | [] => (image, text)
  | RInline mt d :: rest =>
      processImageParts rest
        (Some ("data:" ++ Js.orElse mt "image/png" ++ ";base64," ++ d)%string)
        text
  | RText t :: rest =>
      processImageParts rest image
        (if Js.truthy t then (text ++ t)%string else text)
  | ROther :: rest => processImageParts rest image text
  end.

Definition processImageResponse (parts : list ResponsePart)
           (fallbackText : string) : EveResponse.t :=
  let (image, text) := processImageParts parts None "" in
  EveResponse.mk (Js.orElse (Some text) fallbackText) image
                 None None None None None None.

(** The [catch] block of [sendMessageToEve]. *)
Definition onSendError (error : Thrown) (st : Service)
  : EveResponse.t * Service :=
  let errorMessageText := getErrorMessage error in
  let (userMessage, errorType) := classify errorMessageText in
  (EveResponse.mk userMessage None None None (Some true)
                  (Some errorMessageText) (Some errorType) None,
   dropSession st).

Definition sessionStale (language : Language) (key : string) (st : Service)
  : bool :=
  match chatSession st with
  | None => true
  | Some _ =>
      negb (Language_eqb (currentLanguage st) language)
      || match currentApiKey st with
         | Some k => negb (String.eqb k key)
         | None => true
         end
  end.

(** The first step of a send: the handle is created again when there is
    none, or when the language or the key differs from the tracked ones. *)
Definition ensureSession (history : list Message) (apiKey : option string)
           (genSettings : GenerationSettings) (language : Language)
           (st : Service) : Service :=
  if sessionStale language (getApiKey apiKey) st
  then startChatWithHistory history apiKey (Some genSettings) None language st
  else st.

(** The reply of the chat turned into a response: directives, counter, text
    for display, and the apology when nothing can render the image. *)
Definition onReply (message : string) (resultText : option string)
           (gradioEndpoint : option string) (genSettings : GenerationSettings)
           (st : Service) : EveResponse.t * Service :=
  let replyText := Js.orElse resultText "" in
  let '(visualPrompt, visualType, count) :=
    directiveBranch (aiImageGeneration genSettings) message replyText
                    (textOnlyMessageCount st) in
  let replyText := stripDirectives replyText in
  let st1 := setCount count st in
  if Js.truthyOpt visualPrompt && endpointMissing gradioEndpoint
  then (EveResponse.mk (replyText ++ apology)%string None None (Some visualType)
                       None None None None, st1)
  else (EveResponse.mk replyText None visualPrompt (Some visualType)
                       None None None None, st1).

Definition sendMessageToEve (message : string) (history : list Message)
           (attachmentBase64 : option string) (forceImageGeneration : bool)
           (apiKey : option string) (gradioEndpoint : option string)
           (genSettings : GenerationSettings) (previousVisualContext : string)
           (language : Language) (st : Service) : EveResponse.t * Service :=
  let key := getApiKey apiKey in
  let st := ensureSession history apiKey genSettings language st in
  let hasAttachment := Js.truthyOpt attachmentBase64 in
  let mimeType :=
    match attachmentBase64 with
    | Some a => if Js.truthy a then Js.orElse (dataUrlMime a) "image/jpeg"
                else "image/jpeg"
    | None => "image/jpeg"
    end in
  let cleanBase64 := Js.orElse (option_map stripImagePrefix attachmentBase64) "" in
  if hasAttachment && forceImageGeneration then
    let (n, st1) := nextRequest st in
    match models_generateImage B n key
            (MessageWithImage cleanBase64 mimeType message) with
    | inr parts =>
        (processImageResponse parts "I've evolved the visual.", setCount 0 st1)
    | inl e => onSendError e st1
    end
  else if negb hasAttachment && forceImageGeneration then
    let (enhancedPart, st1) :=
      rephrasePromptForGradio message apiKey (Some previousVisualContext)
                              selfie st in
    let generationPrompt := (enhancedPart ++ IMAGE_QUALITY_SUFFIX)%string in
    match generateWithGradio generationPrompt gradioEndpoint genSettings st1 with
    | (inr url, st2) =>
        (EveResponse.mk "Here is what I visualized." (Some url) None None
                        None None None (Some enhancedPart),
         setCount 0 st2)
    | (inl m, st2) => onSendError (ThrownError m) st2
    end
  else
    let msgContent :=
      if hasAttachment then MessageWithImage cleanBase64 mimeType message
      else PlainMessage message in
    let st :=
      match chatSession st with
      | None => initializeChat [] apiKey (Some genSettings) None language st
      | Some _ => st
      end in
    match chatSession st with
    | Some chat =>
        let (n, st1) := nextRequest st in
        match chat_sendMessage B n chat msgContent with
        | inr resultText =>
            onReply message resultText gradioEndpoint genSettings st1
        | inl e => onSendError e st1
        end
    | None =>
        (* no handle to call: a TypeError, caught like any other *)
        onSendError (ThrownError "Cannot read properties of null") st
    end.

End ServiceModule.

(* ------------------------------------------------------------------ *)
(** ** The dispatch loop of the application ([processMessageSending]) *)

(** A render started and not awaited. *)
Record RenderTask := mkTask {
  task_messageId : string;
  task_prompt : string;
  task_apiKey : option string;
  task_endpoint : option string;
  task_settings : GenerationSettings;
  task_memory : string;
  task_type : VisualType
}.

(** What a dispatch can change: the React state it sets through updaters, the
    stored active key, the service module, and three ghost fields: the keys
    the sends were made with, the notices shown, the clock reads. *)
Record App := mkApp {
  messages : list Message;
  activeKeyId : option string;
  storedActiveKeyId : option string;
  visualMemory : string;
  pendingRenders : list RenderTask;
  service : Service;
  sends : list (option string);
  toasts : list string;
  clockReads : nat
}.

(** The values a dispatch reads from the render it was created in. *)
Record Captured := mkCaptured {
  apiKeys : list ApiKeyDef;
  isImageEvolutionMode : bool;
  gradioEndpoint : option string;
  genSettings : GenerationSettings;
  capturedVisualMemory : string;
  language : Language
}.

(** A send either resolves with a response or rejects. *)
Inductive SendOutcome :=
| Resolved (response : EveResponse.t)
| Rejected.

Definition SendFn := option string -> Service -> SendOutcome * Service.

Definition optEqb (a b : option string) : bool :=
  match a, b with
  | Some x, Some y => String.eqb x y
  | None, None => true
  | _, _ => false
  end.

(** [apiKeys.findIndex(k => k.id === keyId)]; [None] stands for -1. *)
Fixpoint findIndex (keyId : option string) (keys : list ApiKeyDef) : option nat :=
  match keys with
  | [] => None
  | k :: rest =>
      if optEqb (Some (key_id k)) keyId then Some 0
      else option_map S (findIndex keyId rest)
  end.

Definition findKey (keyId : option string) (keys : list ApiKeyDef)
  : option ApiKeyDef :=
  find (fun k => optEqb (Some (key_id k)) keyId) keys.

Definition setMessages (f : list Message -> list Message) (a : App) : App :=
  mkApp (f (messages a)) (activeKeyId a) (storedActiveKeyId a) (visualMemory a)
        (pendingRenders a) (service a) (sends a) (toasts a) (clockReads a).

Definition setVisualMemory (m : string) (a : App) : App :=
  mkApp (messages a) (activeKeyId a) (storedActiveKeyId a) m
        (pendingRenders a) (service a) (sends a) (toasts a) (clockReads a).

Definition switchActiveKey (keyId : string) (a : App) : App :=
  mkApp (messages a) (Some keyId) (Some keyId) (visualMemory a)
        (pendingRenders a) (service a) (sends a) (toasts a) (clockReads a).

Definition showToast (m : string) (a : App) : App :=
  mkApp (messages a) (activeKeyId a) (storedActiveKeyId a) (visualMemory a)
        (pendingRenders a) (service a) (sends a) (m :: toasts a) (clockReads a).

Definition spawnRender (t : RenderTask) (a : App) : App :=
  mkApp (messages a) (activeKeyId a) (storedActiveKeyId a) (visualMemory a)
        (pendingRenders a ++ [t]) (service a) (sends a) (toasts a)
        (clockReads a).

Definition exhaustedShort : string :=
  "All available API keys have exceeded their quota.".

Definition exhaustedLong : string :=
  "All available API keys have exceeded their quota. Please add a new key or check your billing.".

Definition isQuotaError (response : EveResponse.t) : bool :=
  flag (EveResponse.isError response)
  && match EveResponse.errorType response with
     | Some t => ErrorType_eqb t QUOTA_EXCEEDED
     | None => false
     end.

Section Dispatch.

(** [Date.now().toString()], by the number of the read. *)
Variable dateNow : nat -> string.
Variable captured : Captured.
Variable send : SendFn.

Definition readClock (a : App) : string * App :=
  (dateNow (clockReads a),
   mkApp (messages a) (activeKeyId a) (storedActiveKeyId a) (visualMemory a)
         (pendingRenders a) (service a) (sends a) (toasts a)
         (S (clockReads a))).

(** An error-flagged turn of the assistant appended to the conversation. *)
Definition appendError (t : string) (a : App) : App :=
  let (now, a1) := readClock a in
  setMessages (fun prev => prev ++ [mkMessage now model t None (Some true) None])
              a1.

(** One call of the send, recorded. *)
Definition callSend (apiKeyToUse : option string) (a : App)
  : SendOutcome * App :=
  let (outcome, sv) := send apiKeyToUse (service a) in
  (outcome,
   mkApp (messages a) (activeKeyId a) (storedActiveKeyId a) (visualMemory a)
         (pendingRenders a) sv (sends a ++ [apiKeyToUse]) (toasts a)
         (clockReads a)).

Definition totalKeys : nat :=
  if 0 <? List.length (apiKeys captured) then List.length (apiKeys captured)
  else 1.

(** The end of a dispatch whose send resolved and is not rotated. *)
Definition settle (response : EveResponse.t) (a : App) : App :=
  if flag (EveResponse.isError response) then
    appendError (EveResponse.text response) a
  else
    let (messageId, a1) := readClock a in
    let a2 :=
      setMessages
        (fun prev =>
           prev ++ [mkMessage messageId model (EveResponse.text response)
                              (EveResponse.image response) None
                              (Some (Js.truthyOpt (EveResponse.visualPrompt response)))])
        a1 in
    let a3 :=
      match EveResponse.enhancedPrompt response with
      | Some p => if Js.truthy p then setVisualMemory p a2 else a2
      | None => a2
      end in
    match EveResponse.visualPrompt response with
    | Some vp =>
        if Js.truthy vp then
          let latestKeyDef := findKey (storedActiveKeyId a3) (apiKeys captured) in
          spawnRender
            (mkTask messageId vp (option_map key latestKeyDef)
                    (gradioEndpoint captured) (genSettings captured)
                    (capturedVisualMemory captured)
                    (match EveResponse.visualType response with
                     | Some t => t
                     | None => scene
                     end))
            a3
        else a3
    | None => a3
    end.

(** The [while] loop and what follows it.  Each turn either returns or adds
    one to [attempts], so [fuel] is spent only by the turns of the loop. *)
Fixpoint rotationLoop (fuel : nat) (initialKeyId keyIdToTry : option string)
         (attempts : nat) (a : App) : option App :=
  if attempts <? totalKeys then
    match fuel with
    | O => None
    | S fuel' =>
        let activeKeyDef := findKey keyIdToTry (apiKeys captured) in
        let apiKeyToUse := option_map key activeKeyDef in
        match callSend apiKeyToUse a with
        | (Rejected, a1) => Some (appendError "Signal lost." a1)
        | (Resolved response, a1) =>
            if isQuotaError response && (1 <? List.length (apiKeys captured))
            then
              let currentIndex := findIndex keyIdToTry (apiKeys captured) in
              let nextIndex :=
                (match currentIndex with Some i => i + 1 | None => 0 end)
                  mod List.length (apiKeys captured) in
              match nth_error (apiKeys captured) nextIndex with
              | Some nextKey =>
                  if optEqb (Some (key_id nextKey)) initialKeyId
                     && (0 <? attempts)
                  then Some (appendError exhaustedShort a1)
                  else
                    let a2 :=
                      showToast ("Quota exceeded. Trying key: "
                                 ++ key_label nextKey)%string a1 in
                    let a3 := switchActiveKey (key_id nextKey) a2 in
                    rotationLoop fuel' initialKeyId (Some (key_id nextKey))
                                 (S attempts) a3
              | None =>
                  (* no such element: a TypeError, caught by the [catch] *)
                  Some (appendError "Signal lost." a1)
              end
            else Some (settle response a1)
        end
    end
  else if totalKeys <=? attempts then Some (appendError exhaustedLong a)
  else Some a.

Definition processMessageSending (initialKeyId : option string) (a : App)
  : option App :=
  rotationLoop totalKeys initialKeyId initialKeyId 0 a.

End Dispatch.

(** The send of the application: [sendMessageToEve] on the message of the
    user, with the captured values. *)
Definition sendOf (B : Backend) (captured : Captured) (userMsg : Message)
           (currentAttachment : option string)
           (historySnapshot : list Message) : SendFn :=
  fun apiKeyToUse sv =>
    let (response, sv') :=
      sendMessageToEve B (text userMsg) historySnapshot
        (match currentAttachment with
         | Some a => if Js.truthy a then Some a else None
         | None => None
         end)
        (isImageEvolutionMode captured) apiKeyToUse (gradioEndpoint captured)
        (genSettings captured) (capturedVisualMemory captured)
        (language captured) sv in
    (Resolved response, sv').

(* ------------------------------------------------------------------ *)
(** ** Completion of a detached render *)

(** [{ ...m, image: url, isImageLoading: false }] *)
Definition withImage (url : string) (m : Message) : Message :=
  mkMessage (id m) (role m) (text m) (Some url) (isError m) (Some false).

(** [{ ...m, isImageLoading: false }] *)
Definition withoutLoading (m : Message) : Message :=
  mkMessage (id m) (role m) (text m) (image m) (isError m) (Some false).

(** [prev.map(m => m.id === messageId ? f(m) : m)] *)
Definition patchMessage (messageId : string) (f : Message -> Message)
           (prev : list Message) : list Message :=
  map (fun m => if String.eqb (id m) messageId then f m else m) prev.

(** The [then] and [catch] handlers of the render, on its outcome. *)
Definition onRenderSettled (messageId : string)
           (outcome : string + RenderResult) (a : App) : App :=
  match outcome with
  | inr result =>
      if Js.truthy (imageUrl result) then
        let a1 := setMessages (patchMessage messageId (withImage (imageUrl result))) a in
        if Js.truthy (enhancedPrompt result)
        then setVisualMemory (enhancedPrompt result) a1 else a1
      else setMessages (patchMessage messageId withoutLoading) a
  | inl _ => setMessages (patchMessage messageId withoutLoading) a
  end.

(** A pending render run to its end. *)
Definition completeRender (B : Backend) (t : RenderTask) (a : App) : App :=
  let (outcome, sv) :=
    generateVisualSelfie B (task_prompt t) (task_apiKey t) (task_endpoint t)
                         (task_settings t) (task_memory t) (task_type t)
                         (service a) in
  onRenderSettled (task_messageId t) outcome
    (mkApp (messages a) (activeKeyId a) (storedActiveKeyId a) (visualMemory a)
           (pendingRenders a) sv (sends a) (toasts a) (clockReads a)).

(* ------------------------------------------------------------------ *)
(** ** Vocabulary of the properties *)

(** The maximal runs of adjacent turns of one role. *)
Fixpoint runs (l : list Content.t) : list (list Content.t) :=
  match l with
  | [] => []
  | c :: rest =>
      match runs rest with
      | [] => [[c]]
      | [] :: rs => [c] :: rs
      | (d :: r) :: rs =>
          if Role_eqb (Content.role c) (Content.role d)
          then (c :: d :: r) :: rs
          else [c] :: (d :: r) :: rs
      end
  end.

(** One run as one turn: its role, and the parts of its turns in order. *)
Definition mergeRun (run : list Content.t) : list Content.t :=
  match run with
  | [] => []
  | c :: _ => [Content.mk (Content.role c) (concat (map Content.parts run))]
  end.

Definition beginsWithAssistant (l : list Content.t) : Prop :=
  exists c rest, l = c :: rest /\ Content.role c = model.

Definition hasAdjacentSameRole (l : list Content.t) : Prop :=
  exists pre a b post,
    l = pre ++ a :: b :: post /\ Content.role a = Content.role b.

Fixpoint alternates (l : list Role) : bool :=
  match l with
  | a :: ((b :: _) as rest) => negb (Role_eqb a b) && alternates rest
  | _ => true
  end.

(** [msg] has a substring equal to [pat] up to case. *)
Definition containsIgnoringCase (msg pat : string) : Prop :=
  exists a b c,
    msg = (a ++ b ++ c)%string /\ Js.toLowerCase b = Js.toLowerCase pat.

(** The counter after a series of replies, each given with the message of the
    user it answers. *)
Fixpoint countAfter (aiImageGeneration : bool) (l : list (string * string))
         (n : nat) : nat :=
  match l with
  | [] => n
  | (message, replyText) :: rest =>
      countAfter aiImageGeneration rest
        (snd (directiveBranch aiImageGeneration message replyText n))
  end.

(** A reply upon which no directive fires. *)
Definition textOnly (aiImageGeneration : bool) (n : nat)
           (mr : string * string) : Prop :=
  fst (fst (directiveBranch aiImageGeneration (fst mr) (snd mr) n)) = None.

(** A series of such replies, the counter being [n] before the first. *)
Fixpoint allTextOnly (aiImageGeneration : bool) (l : list (string * string))
         (n : nat) : Prop :=
  match l with
  | [] => True
  | mr :: rest =>
      textOnly aiImageGeneration n mr
      /\ allTextOnly aiImageGeneration rest (S n)
  end.

(** A patch that keeps everything but the image and the loading flag, and
    clears the latter. *)
Definition framed (f : Message -> Message) : Prop :=
  forall m,
    id (f m) = id m /\ role (f m) = role m /\ text (f m) = text m
    /\ isError (f m) = isError m /\ isImageLoading (f m) = Some false.

(** Every send resolves with a quota error. *)
Definition allQuota (send : SendFn) : Prop :=
  forall k sv, exists r,
    fst (send k sv) = Resolved r /\ isQuotaError r = true.

(** Every character of [s] satisfies [f]. *)
Fixpoint allChars (f : ascii -> bool) (s : string) : bool :=
  match s with
  | EmptyString => true
  | String c s' => f c && allChars f s'
  end.

(** The alphabet of a base64 payload. *)
Definition isBase64Char (c : ascii) : bool :=
  Js.isWordChar c && negb (Ascii.eqb c "_")
  || Ascii.eqb c "+" || Ascii.eqb c "/" || Ascii.eqb c "=".

(** A data URL: what an attachment is encoded as. *)
Definition dataUrl (mime payload : string) : string :=
  ("data:" ++ mime ++ ";base64," ++ payload)%string.

(** The patterns of the classification, on the message of the error. *)
Definition quotaPattern (m : string) : Prop :=
  containsIgnoringCase m "429" \/ containsIgnoringCase m "exhausted"
  \/ containsIgnoringCase m "quota".

Definition authPattern (m : string) : Prop :=
  containsIgnoringCase m "403" \/ containsIgnoringCase m "key".

(* ------------------------------------------------------------------ *)
(** ** Concrete settings and services, for the examples *)

Definition sampleSettings (aiImageGeneration : bool) : GenerationSettings :=
  let q := fun n d => QArith_base.Qmake (BinInt.Z.of_nat n) (BinPos.Pos.of_nat d) in
  mkSettings (q 7 2) (q 30 1) (q 3 5) (q 4 5) (q 42 1) true false
             aiImageGeneration (q 1 1) (q 19 20) (q 40 1).

(** Services whose chat gives [chatAnswer], whose one-shot text generation
    gives [textAnswer] and whose image backend gives [gradioAnswer], whatever
    they are asked; the environment provides a key. *)
Definition constantBackend (chatAnswer : Thrown + option string)
           (textAnswer : Thrown + option string)
           (gradioAnswer : Thrown + list GradioItem) : Backend :=
  mkBackend (Some "ENVKEY") (fun _ => true)
            (fun _ _ _ => textAnswer)
            (fun _ _ _ => inr [RText "done"])
            (fun _ _ _ => chatAnswer)
            (fun _ _ _ _ => gradioAnswer).

Definition sampleImageUrl : string := "https://img.example/1.png".

(** The chat replies [reply]; rephrasing and rendering work. *)
Definition replyingBackend (reply : string) : Backend :=
  constantBackend (inr (Some reply))
                  (inr (Some "A calm beach at dusk, seen from the shore."))
                  (inr [ItemObject (Some sampleImageUrl)]).

(** The chat throws [e]. *)
Definition throwingBackend (e : Thrown) : Backend :=
  constantBackend (inl e) (inr None) (inr []).

Definition sampleKeys : list ApiKeyDef :=
  [mkApiKeyDef "k1" "first" "AAA"; mkApiKeyDef "k2" "second" "BBB";
   mkApiKeyDef "k3" "third" "CCC"].

Definition sampleCaptured (keys : list ApiKeyDef) : Captured :=
  mkCaptured keys false (Some "https://render.example") (sampleSettings true)
             "" english.

Definition emptyApp : App :=
  mkApp [] None None "" [] freshService [] [] 0.

Definition sampleUserMessage : Message :=
  mkMessage "u1" user "hello" None None None.

(** A send on the fresh module whose chat request is refused for quota. *)
Definition quotaBackend : Backend :=
  throwingBackend (ThrownError "429 RESOURCE_EXHAUSTED: quota exceeded").

Definition refusedSend : EveResponse.t * Service :=
  sendMessageToEve quotaBackend "hello" [sampleUserMessage] None false
                   (Some "AAA") (Some "https://render.example")
                   (sampleSettings true) "" english freshService.

(** Rephrasing is refused, rendering works. *)
Definition rephraseFailingBackend : Backend :=
  constantBackend (inr (Some "fine"))
                  (inl (ThrownError "503 model overloaded"))
                  (inr [ItemObject (Some sampleImageUrl)]).

(** Rephrasing works, rendering is refused. *)
Definition renderFailingBackend : Backend :=
  constantBackend (inr (Some "fine"))
                  (inr (Some "A calm beach at dusk, seen from the shore."))
                  (inl (ThrownString "GPU quota exhausted")).

Definition sampleRender (B : Backend) : (string + RenderResult) * Service :=
  generateVisualSelfie B "a beach" (Some "AAA") (Some "https://render.example")
                       (sampleSettings true) "" scene freshService.

(** The first send of a conversation, answered by [reply]. *)
Definition firstSend (aiImageGeneration : bool) (reply : string)
  : EveResponse.t * Service :=
  sendMessageToEve (replyingBackend reply) "hello" [sampleUserMessage] None
                   false (Some "AAA") (Some "https://render.example")
                   (sampleSettings aiImageGeneration) "" english freshService.

Definition sampleClock (n : nat) : string := "1700000000000".

(** The send of a dispatch of [sampleUserMessage] over [keys]. *)
Definition sampleSend (B : Backend) (keys : list ApiKeyDef) : SendFn :=
  sendOf B (sampleCaptured keys) sampleUserMessage None [sampleUserMessage].

(** A dispatch of [sampleUserMessage] in which every send is refused for
    quota: how many sends were made, and the texts in the conversation
    after it. *)
Definition refusedDispatch (keys : list ApiKeyDef)
           (initialKeyId : option string) : option (nat * list string) :=
  option_map (fun a => (List.length (sends a), map text (messages a)))
             (processMessageSending sampleClock (sampleCaptured keys)
                                    (sampleSend quotaBackend keys)
                                    initialKeyId emptyApp).

(* ------------------------------------------------------------------ *)
(** ** More of the application ([App.tsx]) *)

(** What the composer holds: the text typed, the attachment, and the two
    flags [isThinking] and [isImageEvolutionMode]. *)
Record Composer := mkComposer {
  inputText : string;
  attachment : option string;
  isThinking : bool;
  evolutionMode : bool
}.

(** [handleSendMessage]: nothing happens on a blank input without attachment,
    or while a dispatch is running; otherwise the message of the user is
    appended, dispatched with the history that ends with it, and the composer
    is cleared. *)
Definition handleSendMessage (dateNow : nat -> string) (B : Backend)
           (captured : Captured) (c : Composer) (a : App)
  : option (Composer * App) :=
  if (negb (Js.truthy (Js.trim (inputText c)))
      && negb (Js.truthyOpt (attachment c)))
     || isThinking c
  then Some (c, a)
  else
    let (now, a1) := readClock dateNow a in
    let userMsg :=
      mkMessage now user (inputText c)
                (match attachment c with
                 | Some i => if Js.truthy i then Some i else None
                 | None => None
                 end)
                None None in
    let a2 := setMessages (fun prev => prev ++ [userMsg]) a1 in
    let currentAttachment := attachment c in
    let historySnapshot := messages a ++ [userMsg] in
    match processMessageSending dateNow captured
            (sendOf B captured userMsg currentAttachment historySnapshot)
            (activeKeyId a) a2 with
    | Some a3 => Some (mkComposer "" None false false, a3)
    | None => None
    end.


(** The estimate of the token count: a quarter of the characters of the
    texts, rounded to the nearest integer, halves upwards. *)
Definition totalChars (msgs : list Message) : nat :=
  fold_left (fun acc msg => acc + String.length (text msg)) msgs 0.

Definition estimateTokens (isLoaded : bool) (msgs : list Message) : nat :=
  if isLoaded && (1 <? List.length msgs) then (totalChars msgs + 2) / 4 else 0.

(** A reply cut in pieces: text without opening bracket, and tags. *)
Inductive ReplyPiece :=
| Plain (s : string)
| Tag (kind : VisualType) (description : option string).

Definition keyword (kind : VisualType) : string :=
  match kind with selfie => "SELFIE" | scene => "SCENE" end.

Definition renderPiece (p : ReplyPiece) : string :=
  match p with
  | Plain s => s
  | Tag kind None => String "[" (keyword kind ++ "]")
  | Tag kind (Some d) => String "[" (keyword kind ++ String ":" (d ++ "]"))
  end%string.

Fixpoint renderReply (l : list ReplyPiece) : string :=
  match l with
  | [] => ""
  | p :: rest => (renderPiece p ++ renderReply rest)%string
  end.

Fixpoint plainText (l : list ReplyPiece) : string :=
  match l with
  | [] => ""
  | Plain s :: rest => (s ++ plainText rest)%string
  | Tag _ _ :: rest => plainText rest
  end.

Definition noBracket (s : string) : bool :=
  allChars (fun c => negb (Ascii.eqb c "[")) s.

(** A description the pattern of the tags accepts: no bracket, and no line
    terminator after its leading white space. *)
Definition plainDescription (d : string) : bool :=
  noBracket d && allChars (fun c => negb (Ascii.eqb c "]")) d
  && allChars (fun c => negb (Js.isLineTerminator c)) (Js.trimStart d).

Definition wellFormedPiece (p : ReplyPiece) : bool :=
  match p with
  | Plain s => noBracket s
  | Tag _ None => true
  | Tag _ (Some d) => plainDescription d
  end.

(** The number of backticks at the front of [s]. *)
Fixpoint leadingTicks (s : string) : nat :=
  match s with
  | String "`" s' => S (leadingTicks s')
  | _ => 0
  end.

(** A message that contributes nothing to the normalised history. *)
Definition contributesNothing (h : Message) : bool :=
  flag (isError h)
  || match role h with
     | user => negb (Js.truthy (text h)) && negb (Js.truthyOpt (image h))
     | model => false
     end.

(** The keys a rotation from the key at [i0] tries, in order. *)
Definition cyclicKeys (keys : list ApiKeyDef) (i0 : nat) : list (option string) :=
  map (fun t => option_map key (nth_error keys ((i0 + t) mod List.length keys)))
      (seq 0 (List.length keys)).

(** The chat refuses the key AAA for quota and answers every other key. *)
Definition firstKeyExhausted : Backend :=
  mkBackend (Some "ENVKEY") (fun _ => true)
            (fun _ _ _ => inr None)
            (fun _ _ _ => inr [])
            (fun _ chat _ =>
               if String.eqb (chat_apiKey chat) "AAA"
               then inl (ThrownError "429 RESOURCE_EXHAUSTED: quota exceeded")
               else inr (Some "Hi there"))
            (fun _ _ _ _ => inr []).

(** The absence reported when a saved session is loaded ([hydrate]):
    [diffMs] is the time since the session was saved, in milliseconds.  The
    source computes on doubles; on integers of magnitude below 2^53 the
    quotients it floors are those of the integers and the numbers print in
    decimal, and that is the range modelled: outside it there is no result. *)
Definition showZ (z : BinNums.Z) : string :=
  DecimalString.NilEmpty.string_of_int (BinInt.Z.to_int z).

Definition safeInteger (z : BinNums.Z) : bool :=
  let bound := BinInt.Z.pow (BinInt.Z.of_nat 2) (BinInt.Z.of_nat 53) in
  BinInt.Z.ltb (BinInt.Z.opp bound) z && BinInt.Z.ltb z bound.

Definition awayDuration (diffMs : BinNums.Z) : option string :=
  if safeInteger diffMs then
    let diffSec := BinInt.Z.div diffMs (BinInt.Z.of_nat 1000) in
    let diffMin := BinInt.Z.div diffSec (BinInt.Z.of_nat 60) in
    let diffHr := BinInt.Z.div diffMin (BinInt.Z.of_nat 60) in
    Some
      (if BinInt.Z.ltb BinNums.Z0 diffHr then
         (showZ diffHr ++ " hours and "
          ++ showZ (BinInt.Z.modulo diffMin (BinInt.Z.of_nat 60))
          ++ " minutes")%string
       else if BinInt.Z.ltb BinNums.Z0 diffMin then
         (showZ diffMin ++ " minutes")%string
       else if BinInt.Z.ltb (BinInt.Z.of_nat 10) diffSec then
         (showZ diffSec ++ " seconds")%string
       else ""%string)
  else None.

(** What the normalisation keeps of the messages, said apart from the loop:
    the parts a message contributes (for the user the decoded image, then the
    text when there is one; for the assistant its text, or the placeholder),
    the messages kept (not flagged as errors, contributing a part), and the
    turn of a kept message. *)
Definition contribution (h : Message) : list Part :=
  match role h with
  | user => imageParts (image h) ++ textParts (text h)
  | model => [TextPart (if Js.truthy (text h) then text h else "...")]
  end.

Definition keptMessage (h : Message) : bool :=
  negb (flag (isError h))
  && match contribution h with
     | [] => false
     | _ :: _ => true
     end.

Definition turnOf (h : Message) : Content.t :=
  Content.mk (role h) (contribution h).

(** A send with the key AAA, refused for quota, and the send that follows it
    with the key BBB, on the module the first one left. *)
Definition refusedFirstKey : EveResponse.t * Service :=
  sendMessageToEve firstKeyExhausted "hello" [sampleUserMessage] None false
                   (Some "AAA") (Some "https://render.example")
                   (sampleSettings true) "" english freshService.

Definition retriedSecondKey : EveResponse.t * Service :=
  sendMessageToEve firstKeyExhausted "hello" [sampleUserMessage] None false
                   (Some "BBB") (Some "https://render.example")
                   (sampleSettings true) "" english (snd refusedFirstKey).

(* ================================================================== *)
(** * Properties *)

(* ------------------------------------------------------------------ *)
(** ** Normalisation: the merge is the merge of the maximal runs *)

Lemma Role_eqb_eq (a b : Role) : Role_eqb a b = true <-> a = b.
Proof. destruct a, b; simpl; split; congruence. Qed.

Lemma Role_eqb_neq (a b : Role) : Role_eqb a b = false <-> a <> b.
Proof. destruct a, b; simpl; split; congruence. Qed.

Lemma mergeLoop_acc (rest : list Content.t) :
  forall merged cur,
    mergeLoop merged cur rest = merged ++ mergeLoop [] cur rest.
Proof.
  induction rest as [|v rest IH]; intros merged cur; simpl.
  - reflexivity.
  - destruct (Role_eqb (Content.role v) (Content.role cur)).
    + apply IH.
    + rewrite IH, (IH [cur]), app_assoc. reflexivity.
Qed.

Lemma runs_cons_head (l : list Content.t) (c : Content.t) :
  exists r rs, runs (c :: l) = (c :: r) :: rs.
Proof.
  simpl. destruct (runs l) as [|[|d r] rs]; eauto.
  destruct (Role_eqb (Content.role c) (Content.role d)); eauto.
Qed.

Lemma runs_head_role (l : list Content.t) :
  forall c d r rs,
    runs (c :: l) = (d :: r) :: rs -> d = c.
Proof.
  intros c d r rs H. destruct (runs_cons_head l c) as (r' & rs' & E).
  rewrite E in H. congruence.
Qed.

Lemma mergeLoop_runs (rest : list Content.t) :
  forall cur, mergeLoop [] cur rest = flat_map mergeRun (runs (cur :: rest)).
Proof.
  induction rest as [|v rest IH]; intros [rc pc].
  - simpl. rewrite app_nil_r. reflexivity.
  - cbn [mergeLoop].
    destruct (Role_eqb (Content.role v) (Content.role (Content.mk rc pc))) eqn:E.
    + rewrite IH. apply Role_eqb_eq in E. cbn [Content.role Content.parts] in *.
      destruct v as [rv pv]. cbn [Content.role Content.parts] in *. subst rv.
      change (runs (Content.mk rc pc :: Content.mk rc pv :: rest))
        with (match runs (Content.mk rc pv :: rest) with
              | [] => [[Content.mk rc pc]]
              | [] :: rs => [Content.mk rc pc] :: rs
              | (d :: r) :: rs =>
                  if Role_eqb rc (Content.role d)
                  then (Content.mk rc pc :: d :: r) :: rs
                  else [Content.mk rc pc] :: (d :: r) :: rs
              end).
      destruct (runs_cons_head rest (Content.mk rc pv)) as (r & rs & Ev).
      rewrite Ev. cbn [Content.role].
      replace (Role_eqb rc rc) with true by (destruct rc; reflexivity).
      revert Ev. simpl.
      destruct (runs rest) as [|[|d r'] rs']; simpl.
      * intros Ev; inversion Ev; subst. simpl.
        rewrite !app_nil_r. reflexivity.
      * intros Ev; inversion Ev; subst. simpl.
        rewrite !app_nil_r. reflexivity.
      * destruct (Role_eqb rc (Content.role d)); intros Ev; inversion Ev; subst;
          simpl; rewrite <- ?app_assoc; reflexivity.
    + rewrite mergeLoop_acc, IH.
      destruct (runs_cons_head rest v) as (r & rs & Ev).
      change (runs (Content.mk rc pc :: v :: rest))
        with (match runs (v :: rest) with
              | [] => [[Content.mk rc pc]]
              | [] :: rs => [Content.mk rc pc] :: rs
              | (d :: r) :: rs =>
                  if Role_eqb rc (Content.role d)
                  then (Content.mk rc pc :: d :: r) :: rs
                  else [Content.mk rc pc] :: (d :: r) :: rs
              end).
      rewrite Ev. cbn [Content.role] in *.
      replace (Role_eqb rc (Content.role v)) with false
        by (destruct rc, (Content.role v); simpl in *; congruence).
      simpl. rewrite app_nil_r. reflexivity.
Qed.

Lemma mergeTurns_runs (valid : list Content.t) :
  mergeTurns valid = flat_map mergeRun (runs valid).
Proof.
  destruct valid as [|v0 rest]; [reflexivity|]. apply mergeLoop_runs.
Qed.

(** The runs are a partition of the list into non-empty blocks of one role,
    neighbouring blocks being of different roles. *)
Lemma runs_concat (l : list Content.t) : concat (runs l) = l.
Proof.
  induction l as [|c l IH]; [reflexivity|].
  simpl. destruct (runs l) as [|[|d r] rs]; simpl in *.
  - subst. reflexivity.
  - subst. reflexivity.
  - destruct (Role_eqb (Content.role c) (Content.role d)); simpl;
      rewrite <- IH; reflexivity.
Qed.

Lemma runs_uniform (l : list Content.t) :
  Forall (fun run =>
            exists c r, run = c :: r
              /\ Forall (fun d => Content.role d = Content.role c) r)
         (runs l).
Proof.
  induction l as [|c l IH]; [constructor|].
  simpl. destruct (runs l) as [|[|d r] rs].
  - constructor; [|constructor]. exists c, []. split; [reflexivity|constructor].
  - inversion IH as [|? ? (c' & r' & E & _) _]. discriminate.
  - inversion IH as [|? ? (c' & r' & E & Hr) Hrs]; subst. inversion E; subst.
    destruct (Role_eqb (Content.role c) (Content.role c')) eqn:Ec.
    + constructor; [|assumption]. apply Role_eqb_eq in Ec.
      exists c, (c' :: r'). split; [reflexivity|].
      constructor; [congruence|].
      eapply Forall_impl; [|exact Hr]. simpl. intros; congruence.
    + constructor; [|constructor; [|assumption]].
      * exists c, []. split; [reflexivity|constructor].
      * exists c', r'. split; [reflexivity|assumption].
Qed.

(* ------------------------------------------------------------------ *)
(** ** Normalisation: alternation of the roles *)

Lemma alternates_snoc (l : list Role) :
  forall a b,
    alternates (l ++ [a]) = true -> a <> b -> alternates (l ++ [a; b]) = true.
Proof.
  induction l as [|x l IH]; intros a b H Hab.
  - simpl. apply Role_eqb_neq in Hab. rewrite Hab. reflexivity.
  - destruct l as [|y l].
    + simpl in *. apply andb_true_iff in H as [H _]. rewrite H.
      apply Role_eqb_neq in Hab. rewrite Hab. reflexivity.
    + change (alternates ((x :: y :: l) ++ [a]))
        with (negb (Role_eqb x y) && alternates ((y :: l) ++ [a])) in H.
      change (alternates ((x :: y :: l) ++ [a; b]))
        with (negb (Role_eqb x y) && alternates ((y :: l) ++ [a; b])).
      apply andb_true_iff in H as [Hxy H]. rewrite Hxy. simpl.
      apply (IH a b H Hab).
Qed.

Lemma alternates_tail (a : Role) (l : list Role) :
  alternates (a :: l) = true -> alternates l = true.
Proof.
  destruct l as [|b l]; [reflexivity|].
  simpl. intros H. apply andb_true_iff in H as [_ H]. exact H.
Qed.

Lemma alternates_no_pair (pre : list Role) :
  forall a b post, alternates (pre ++ a :: b :: post) = true -> a <> b.
Proof.
  induction pre as [|x pre IH]; intros a b post H.
  - simpl in H. apply andb_true_iff in H as [H _].
    apply negb_true_iff, Role_eqb_neq in H. exact H.
  - apply (IH a b post). apply (alternates_tail x). exact H.
Qed.

Lemma mergeLoop_alternates (rest : list Content.t) :
  forall merged cur,
    alternates (map Content.role (merged ++ [cur])) = true ->
    alternates (map Content.role (mergeLoop merged cur rest)) = true.
Proof.
  induction rest as [|v rest IH]; intros merged cur H; simpl.
  - exact H.
  - destruct (Role_eqb (Content.role v) (Content.role cur)) eqn:E.
    + apply IH. rewrite map_app in *. exact H.
    + apply IH. rewrite !map_app in *. rewrite <- app_assoc. simpl.
      apply alternates_snoc; [exact H|].
      apply Role_eqb_neq in E. congruence.
Qed.

Lemma mergeTurns_alternates (valid : list Content.t) :
  alternates (map Content.role (mergeTurns valid)) = true.
Proof.
  destruct valid as [|v0 rest]; [reflexivity|].
  apply mergeLoop_alternates. reflexivity.
Qed.

Lemma dropLeadingModel_alternates (l : list Content.t) :
  alternates (map Content.role l) = true ->
  alternates (map Content.role (dropLeadingModel l)) = true.
Proof.
  induction l as [|c l IH]; intros H; simpl; [reflexivity|].
  destruct (Content.role c) eqn:E.
  - simpl. rewrite E. simpl in H. rewrite E in H. exact H.
  - apply IH. simpl in H. apply alternates_tail in H. exact H.
Qed.

Lemma dropLeadingModel_head (l : list Content.t) :
  forall c rest, dropLeadingModel l = c :: rest -> Content.role c = user.
Proof.
  induction l as [|d l IH]; intros c rest H; simpl in H; [discriminate|].
  destruct (Content.role d) eqn:E.
  - inversion H; subst. exact E.
  - eapply IH; eauto.
Qed.

(** What [dropLeadingModel] removes: turns of the assistant. *)
Lemma dropLeadingModel_split (l : list Content.t) :
  exists lead,
    l = lead ++ dropLeadingModel l
    /\ Forall (fun c => Content.role c = model) lead.
Proof.
  induction l as [|d l (lead & E & F)]; simpl.
  - exists []. split; [reflexivity|constructor].
  - destruct (Content.role d) eqn:Ed.
    + exists []. split; [reflexivity|constructor].
    + exists (d :: lead). split.
      * simpl. rewrite <- E. reflexivity.
      * constructor; assumption.
Qed.

Lemma lastRole_snoc (l : list Content.t) (r : Role) :
  lastRole l = Some r ->
  exists l' c, l = l' ++ [c] /\ Content.role c = r.
Proof.
  unfold lastRole. intros H.
  destruct (rev l) as [|c t] eqn:E; [discriminate|].
  inversion H; subst. exists (rev t), c. split; [|reflexivity].
  rewrite <- (rev_involutive l), E. reflexivity.
Qed.

Lemma closeWithPlaceholder_cases (l : list Content.t) :
  closeWithPlaceholder l = l
  \/ (closeWithPlaceholder l = l ++ [placeholderTurn]
      /\ lastRole l = Some user /\ 1 < List.length l).
Proof.
  unfold closeWithPlaceholder.
  destruct (1 <? List.length l) eqn:E; [|left; reflexivity].
  destruct (lastRole l) as [[|]|] eqn:L; auto.
  right. apply Nat.ltb_lt in E. auto.
Qed.

Lemma closeWithPlaceholder_alternates (l : list Content.t) :
  alternates (map Content.role l) = true ->
  alternates (map Content.role (closeWithPlaceholder l)) = true.
Proof.
  intros H.
  destruct (closeWithPlaceholder_cases l) as [E | (E & L & _)]; rewrite E.
  - exact H.
  - apply lastRole_snoc in L as (l' & c & El & Ec). subst l.
    rewrite <- app_assoc. simpl. rewrite map_app in *. simpl in *. rewrite Ec in *.
    apply alternates_snoc; [exact H | discriminate].
Qed.

Lemma closeWithPlaceholder_head (l : list Content.t) :
  forall c rest,
    closeWithPlaceholder l = c :: rest -> exists rest', l = c :: rest'.
Proof.
  intros c rest H.
  destruct (closeWithPlaceholder_cases l) as [E | (E & _ & Hlen)];
    rewrite E in H.
  - eauto.
  - destruct l as [|d l]; [simpl in Hlen; lia|].
    simpl in H. inversion H; subst. eauto.
Qed.

(** C2: for every list of messages, the turns [formatHistoryForGemini] returns
    do not begin with a turn of the assistant, and no two neighbouring turns
    have the same role. *)
Theorem normalize_user_first_alternating (history : list Message) :
  ~ beginsWithAssistant (formatHistoryForGemini history)
  /\ ~ hasAdjacentSameRole (formatHistoryForGemini history).
Proof.
  unfold formatHistoryForGemini. split.
  - intros (c & rest & E & Hc).
    apply closeWithPlaceholder_head in E as (rest' & E).
    apply dropLeadingModel_head in E. congruence.
  - intros (pre & a & b & post & E & Hab).
    pose proof (closeWithPlaceholder_alternates _
                  (dropLeadingModel_alternates _
                     (mergeTurns_alternates (validHistory history)))) as A.
    rewrite E, map_app in A. simpl in A.
    apply alternates_no_pair in A. contradiction.
Qed.

Lemma validEntry_kept (h : Message) :
  validEntry h = if keptMessage h then [turnOf h] else [].
Proof.
  unfold validEntry, keptMessage, turnOf, contribution.
  destruct (flag (isError h)); [reflexivity|]. simpl.
  destruct (role h).
  - destruct (imageParts (image h) ++ textParts (text h)); reflexivity.
  - reflexivity.
Qed.

Lemma validHistory_kept (history : list Message) :
  validHistory history = map turnOf (filter keptMessage history).
Proof.
  induction history as [|h history IH]; [reflexivity|].
  simpl. rewrite validEntry_kept, IH.
  destruct (keptMessage h); reflexivity.
Qed.

(** C5: the messages flagged as errors and the messages that contribute no
    part are dropped, the others become one turn each; the merge loop turns
    every maximal run of these turns of one role into one turn carrying the
    parts of the run in order; the turns returned are those merged runs, less
    a leading run of the assistant, plus the placeholder when one is appended.
    The three messages of the example give two turns, also with an error and
    an empty message of the user between them. *)
Theorem normalize_merges_runs :
  (forall history,
      let valid := map turnOf (filter keptMessage history) in
      let merged := flat_map mergeRun (runs valid) in
      validHistory history = valid
      /\ mergeTurns valid = merged
      /\ exists lead body tail,
          merged = lead ++ body
          /\ formatHistoryForGemini history = body ++ tail
          /\ Forall (fun c => Content.role c = model) lead
          /\ List.length lead <= 1
          /\ (tail = [] \/ tail = [placeholderTurn]))
  /\ (forall i1 i2 i3,
         formatHistoryForGemini
           [mkMessage i1 user "hi" None None None;
            mkMessage i2 user "there" None None None;
            mkMessage i3 model "hello" None None None]
         = [Content.mk user [TextPart "hi"; TextPart "there"];
            Content.mk model [TextPart "hello"]])
  /\ (forall i1 i2 i3 i4 i5,
         formatHistoryForGemini
           [mkMessage i1 user "hi" None None None;
            mkMessage i2 model "Connection interrupted." None (Some true) None;
            mkMessage i3 user "" None None None;
            mkMessage i4 user "there" None None None;
            mkMessage i5 model "hello" None None None]
         = [Content.mk user [TextPart "hi"; TextPart "there"];
            Content.mk model [TextPart "hello"]]).
Proof.
  split; [|split; reflexivity].
  intros history valid merged.
  assert (Ev : validHistory history = valid) by apply validHistory_kept.
  assert (Em : mergeTurns valid = merged) by apply mergeTurns_runs.
  split; [exact Ev|]. split; [exact Em|].
  unfold formatHistoryForGemini. rewrite Ev, Em.
  destruct (dropLeadingModel_split merged) as (lead & E & F).
  exists lead, (dropLeadingModel merged).
  assert (Hlen : List.length lead <= 1).
  { pose proof (mergeTurns_alternates valid) as A. rewrite Em, E in A.
    destruct lead as [|a [|b lead]]; simpl; try lia.
    exfalso. inversion F as [|? ? Ha F']; subst. inversion F' as [|? ? Hb _]; subst.
    simpl in A. rewrite Ha, Hb in A. discriminate. }
  destruct (closeWithPlaceholder_cases (dropLeadingModel merged))
    as [C | (C & _ & _)]; rewrite C.
  - exists []. rewrite app_nil_r. repeat split; auto.
  - exists [placeholderTurn]. repeat split; auto.
Qed.

(* ------------------------------------------------------------------ *)
(** ** Strings *)

Lemma stripPrefix_spec (p : string) :
  forall s r, Js.stripPrefix p s = Some r <-> s = (p ++ r)%string.
Proof.
  induction p as [|a p IH]; intros s r; simpl.
  - split; congruence.
  - destruct s as [|b s].
    + split; discriminate.
    + destruct (Ascii.eqb_spec a b) as [->|N].
      * rewrite IH. split; congruence.
      * split; [discriminate | congruence].
Qed.

Lemma startsWith_spec (s p : string) :
  Js.startsWith s p = true <-> exists r, s = (p ++ r)%string.
Proof.
  unfold Js.startsWith. split.
  - destruct (Js.stripPrefix p s) as [r|] eqn:E; [|discriminate].
    intros _. exists r. apply stripPrefix_spec. exact E.
  - intros (r & E). apply stripPrefix_spec in E. rewrite E. reflexivity.
Qed.

Lemma append_assoc (a b c : string) :
  ((a ++ b) ++ c = a ++ (b ++ c))%string.
Proof. induction a as [|x a IH]; simpl; congruence. Qed.

Lemma append_nil_r (a : string) : (a ++ "")%string = a.
Proof. induction a as [|x a IH]; simpl; congruence. Qed.

Lemma includes_spec (s p : string) :
  Js.includes s p = true <-> exists a c, s = (a ++ p ++ c)%string.
Proof.
  induction s as [|x s IH].
  - simpl. destruct (Js.startsWith "" p) eqn:E.
    + split; [intros _|reflexivity].
      apply startsWith_spec in E as (r & E). exists ""%string, r. exact E.
    + split; [discriminate|]. intros ([|y a] & c & H).
      * assert (Js.startsWith "" p = true) by (apply startsWith_spec; eauto).
        congruence.
      * discriminate.
  - cbn [Js.includes]. destruct (Js.startsWith (String x s) p) eqn:E.
    + split; [intros _|reflexivity].
      apply startsWith_spec in E as (r & E). exists ""%string, r. exact E.
    + rewrite IH. split.
      * intros (a & c & H). exists (String x a), c. simpl. congruence.
      * intros ([|y a] & c & H).
        -- assert (Js.startsWith (String x s) p = true)
             by (apply startsWith_spec; eauto).
           congruence.
        -- simpl in H. inversion H; subst. eauto.
Qed.

Lemma toLowerCase_app (a b : string) :
  Js.toLowerCase (a ++ b) = (Js.toLowerCase a ++ Js.toLowerCase b)%string.
Proof. induction a as [|x a IH]; simpl; congruence. Qed.

Lemma toLowerCase_split (m : string) :
  forall x y,
    Js.toLowerCase m = (x ++ y)%string ->
    exists m1 m2,
      m = (m1 ++ m2)%string
      /\ Js.toLowerCase m1 = x /\ Js.toLowerCase m2 = y.
Proof.
  induction m as [|c m IH]; intros x y H.
  - destruct x; [|discriminate]. simpl in H. subst y.
    exists ""%string, ""%string. auto.
  - destruct x as [|d x].
    + simpl in H. subst y. exists ""%string, (String c m). auto.
    + simpl in H. inversion H as [[Hd Hm]].
      apply IH in Hm as (m1 & m2 & E & E1 & E2).
      exists (String c m1), m2. simpl. repeat split; congruence.
Qed.

(** The test of the [catch] block is containment up to case. *)
Lemma includes_lower_iff (msg pat : string) :
  Js.includes (Js.toLowerCase msg) (Js.toLowerCase pat) = true
  <-> containsIgnoringCase msg pat.
Proof.
  rewrite includes_spec. unfold containsIgnoringCase. split.
  - intros (x & z & H).
    apply toLowerCase_split in H as (a & bc & E & Ea & Ebc).
    apply toLowerCase_split in Ebc as (b & c & E' & Eb & Ec).
    exists a, b, c. subst. auto.
  - intros (a & b & c & E & Eb). subst msg.
    exists (Js.toLowerCase a), (Js.toLowerCase c).
    rewrite !toLowerCase_app, Eb. reflexivity.
Qed.

(* ------------------------------------------------------------------ *)
(** ** Error classification *)

Ltac classify_cases m :=
  unfold quotaPattern, authPattern, classify;
  rewrite <- !includes_lower_iff;
  change (Js.toLowerCase "429") with "429";
  change (Js.toLowerCase "exhausted") with "exhausted";
  change (Js.toLowerCase "quota") with "quota";
  change (Js.toLowerCase "403") with "403";
  change (Js.toLowerCase "key") with "key";
  destruct (Js.includes (Js.toLowerCase m) "429");
  destruct (Js.includes (Js.toLowerCase m) "exhausted");
  destruct (Js.includes (Js.toLowerCase m) "quota");
  destruct (Js.includes (Js.toLowerCase m) "403");
  destruct (Js.includes (Js.toLowerCase m) "key"); simpl;
  intuition congruence.

Lemma classify_quota (m : string) :
  snd (classify m) = QUOTA_EXCEEDED <-> quotaPattern m.
Proof. classify_cases m. Qed.

Lemma classify_auth (m : string) :
  snd (classify m) = AUTH_ERROR <-> ~ quotaPattern m /\ authPattern m.
Proof. classify_cases m. Qed.

Lemma classify_general (m : string) :
  snd (classify m) = GENERAL <-> ~ quotaPattern m /\ ~ authPattern m.
Proof. classify_cases m. Qed.

Lemma onSendError_kind (e : Thrown) (st : Service) :
  EveResponse.errorType (fst (onSendError e st))
  = Some (snd (classify (getErrorMessage e))).
Proof.
  unfold onSendError. destruct (classify (getErrorMessage e)). reflexivity.
Qed.

(** C4: the kind the [catch] block of the send gives a thrown value is
    QUOTA_EXCEEDED exactly when its message contains, up to case, 429,
    exhausted or quota; failing that, AUTH_ERROR exactly when it contains 403
    or key; and GENERAL exactly when it contains none of the five. *)
Theorem error_kind_by_pattern (e : Thrown) (st : Service) :
  let m := getErrorMessage e in
  let kind := EveResponse.errorType (fst (onSendError e st)) in
  (kind = Some QUOTA_EXCEEDED <-> quotaPattern m)
  /\ (kind = Some AUTH_ERROR <-> ~ quotaPattern m /\ authPattern m)
  /\ (kind = Some GENERAL <-> ~ quotaPattern m /\ ~ authPattern m).
Proof.
  cbv zeta. rewrite onSendError_kind.
  pose proof (classify_quota (getErrorMessage e)) as Q.
  pose proof (classify_auth (getErrorMessage e)) as A.
  pose proof (classify_general (getErrorMessage e)) as G.
  split; [|split].
  - rewrite <- Q. split; congruence.
  - rewrite <- A. split; congruence.
  - rewrite <- G. split; congruence.
Qed.

(* ------------------------------------------------------------------ *)
(** ** The send: failures and the session *)

Section Send.

Variable B : Backend.

Lemma processImageResponse_ok (parts : list ResponsePart) (fb : string) :
  EveResponse.isError (processImageResponse parts fb) = None.
Proof.
  unfold processImageResponse. destruct (processImageParts parts None "").
  reflexivity.
Qed.

Lemma onReply_ok message resultText ep settings st :
  EveResponse.isError (fst (onReply message resultText ep settings st)) = None.
Proof.
  unfold onReply.
  destruct (directiveBranch _ _ _ _) as [[vp vt] n].
  destruct (Js.truthyOpt vp && endpointMissing ep); reflexivity.
Qed.

Lemma onReply_state message resultText ep settings st :
  let st' := snd (onReply message resultText ep settings st) in
  chatSession st' = chatSession st /\ currentApiKey st' = currentApiKey st.
Proof.
  unfold onReply.
  destruct (directiveBranch _ _ _ _) as [[vp vt] n].
  destruct (Js.truthyOpt vp && endpointMissing ep); simpl; auto.
Qed.

Lemma onSendError_state (e : Thrown) (st : Service) :
  let r := onSendError e st in
  flag (EveResponse.isError (fst r)) = true
  /\ chatSession (snd r) = None /\ currentApiKey (snd r) = None.
Proof.
  unfold onSendError. destruct (classify (getErrorMessage e)). simpl. auto.
Qed.

Lemma rephrase_state um k ctx ty st :
  let st' := snd (rephrasePromptForGradio B um k ctx ty st) in
  chatSession st' = chatSession st /\ currentApiKey st' = currentApiKey st
  /\ textOnlyMessageCount st' = textOnlyMessageCount st.
Proof.
  unfold rephrasePromptForGradio. simpl.
  destruct (models_generateText B _ _ _); simpl; auto.
Qed.

Lemma gradio_state prompt ep settings st :
  let st' := snd (generateWithGradio B prompt ep settings st) in
  chatSession st' = chatSession st /\ currentApiKey st' = currentApiKey st
  /\ textOnlyMessageCount st' = textOnlyMessageCount st.
Proof.
  unfold generateWithGradio.
  destruct ep as [e|]; [|simpl; auto].
  destruct (endpointMissing (Some e)); [simpl; auto|]. simpl.
  destruct (gradio_predict B _ _ _ _) as [t|data]; simpl; auto.
  destruct (firstImage data); simpl; auto.
Qed.

(** The session a send works with. *)
Lemma ensureSession_some history apiKey settings lang st :
  exists chat, chatSession (ensureSession B history apiKey settings lang st)
               = Some chat.
Proof.
  unfold ensureSession, sessionStale.
  destruct (chatSession st) as [c|] eqn:E.
  - match goal with |- context [if ?b then _ else _] => destruct b end.
    + simpl. eauto.
    + rewrite E. eauto.
  - simpl. eauto.
Qed.

(** An error response of the send is the work of its [catch] block. *)
Lemma send_error_from_catch message history att force apiKey ep settings ctx
      lang st :
  flag (EveResponse.isError
          (fst (sendMessageToEve B message history att force apiKey ep settings
                                 ctx lang st))) = true ->
  exists e st0,
    sendMessageToEve B message history att force apiKey ep settings ctx lang st
    = onSendError e st0.
Proof.
  unfold sendMessageToEve.
  set (st1 := ensureSession B history apiKey settings lang st).
  destruct (Js.truthyOpt att && force).
  - simpl. destruct (models_generateImage B _ _ _) as [e|parts].
    + eauto.
    + simpl. rewrite processImageResponse_ok. discriminate.
  - destruct (negb (Js.truthyOpt att) && force).
    + destruct (rephrasePromptForGradio B message apiKey (Some ctx) selfie st1)
        as [enh st2].
      destruct (generateWithGradio B _ ep settings st2) as [[m|url] st3].
      * eauto.
      * simpl. discriminate.
    + destruct (ensureSession_some history apiKey settings lang st) as (c & Ec).
      fold st1 in Ec. rewrite Ec. rewrite Ec. simpl.
      destruct (chat_sendMessage B _ _ _) as [e|r].
      * eauto.
      * rewrite onReply_ok. discriminate.
Qed.

(** A response that is not an error leaves the session the send worked
    with. *)
Lemma send_ok_keeps_session message history att force apiKey ep settings ctx
      lang st :
  let r := sendMessageToEve B message history att force apiKey ep settings ctx
                            lang st in
  flag (EveResponse.isError (fst r)) = false ->
  chatSession (snd r)
  = chatSession (ensureSession B history apiKey settings lang st)
  /\ currentApiKey (snd r)
     = currentApiKey (ensureSession B history apiKey settings lang st).
Proof.
  unfold sendMessageToEve.
  set (st1 := ensureSession B history apiKey settings lang st).
  destruct (Js.truthyOpt att && force).
  - simpl. destruct (models_generateImage B _ _ _) as [e|parts].
    + intros H. destruct (onSendError_state e (snd (nextRequest st1))) as (X & _).
      unfold nextRequest in X. simpl in X, H. congruence.
    + simpl. auto.
  - destruct (negb (Js.truthyOpt att) && force).
    + pose proof (rephrase_state message apiKey (Some ctx) selfie st1) as R.
      destruct (rephrasePromptForGradio B message apiKey (Some ctx) selfie st1)
        as [enh st2].
      pose proof (gradio_state (enh ++ IMAGE_QUALITY_SUFFIX)%string ep settings st2)
        as G.
      destruct (generateWithGradio B _ ep settings st2) as [[m|url] st3].
      * intros H. destruct (onSendError_state (ThrownError m) st3) as (X & _).
        simpl in H. congruence.
      * simpl in *. intros _. destruct R as (R1 & R2 & _), G as (G1 & G2 & _).
        split; congruence.
    + destruct (ensureSession_some history apiKey settings lang st) as (c & Ec).
      fold st1 in Ec. rewrite Ec. rewrite Ec. simpl.
      destruct (chat_sendMessage B _ _ _) as [e|r].
      * intros H. destruct (onSendError_state e (snd (nextRequest st1))) as (X & _).
        unfold nextRequest in X. simpl in X, H. congruence.
      * intros _.
        match goal with
        | |- context [onReply message r ep settings ?s] =>
            destruct (onReply_state message r ep settings s) as (X1 & X2)
        end.
        rewrite X1, X2. simpl. auto.
Qed.

Lemma ensureSession_after_drop history apiKey settings lang st :
  chatSession st = None ->
  ensureSession B history apiKey settings lang st
  = startChatWithHistory B history apiKey (Some settings) None lang st.
Proof.
  intros H. unfold ensureSession, sessionStale. rewrite H. reflexivity.
Qed.

Lemma startChat_binds history apiKey settings away lang st :
  let st' := startChatWithHistory B history apiKey settings away lang st in
  currentApiKey st' = Some (getApiKey B apiKey)
  /\ exists chat, chatSession st' = Some chat
                  /\ chat_apiKey chat = getApiKey B apiKey.
Proof.
  unfold startChatWithHistory, initializeChat. simpl. split; [reflexivity|].
  destruct (acceptsHistory B _); eexists; split; reflexivity.
Qed.

End Send.

(** The key bound is the key given, when that one is not blank. *)
Lemma getApiKey_given (B : Backend) (k : string) :
  Js.truthy (Js.trim k) = true -> getApiKey B (Some k) = k.
Proof.
  intros H. unfold getApiKey.
  destruct k as [|c k]; [discriminate H|].
  cbn [Js.truthy andb].
  destruct (Js.trim (String c k)) as [|d t]; [discriminate H|].
  reflexivity.
Qed.

(** C10: a send that returns an error response, of whatever kind, leaves the
    module without chat handle and without tracked key; the send after it
    therefore creates the handle anew, bound to the key it is given (the key
    passed in when that one is not blank), and when that send succeeds the
    module keeps that handle and that key. *)
Theorem failed_send_forces_reinit
        (B : Backend) message history att force apiKey ep settings ctx lang st :
  let r := sendMessageToEve B message history att force apiKey ep settings ctx
                            lang st in
  flag (EveResponse.isError (fst r)) = true ->
  chatSession (snd r) = None
  /\ currentApiKey (snd r) = None
  /\ forall message' history' att' force' apiKey' ep' settings' ctx' lang',
      let st2 := ensureSession B history' apiKey' settings' lang' (snd r) in
      let r2 := sendMessageToEve B message' history' att' force' apiKey' ep'
                                 settings' ctx' lang' (snd r) in
      st2 = startChatWithHistory B history' apiKey' (Some settings') None lang'
                                 (snd r)
      /\ currentApiKey st2 = Some (getApiKey B apiKey')
      /\ (exists chat, chatSession st2 = Some chat
                       /\ chat_apiKey chat = getApiKey B apiKey')
      /\ (flag (EveResponse.isError (fst r2)) = false ->
          currentApiKey (snd r2) = Some (getApiKey B apiKey')
          /\ exists chat, chatSession (snd r2) = Some chat
                          /\ chat_apiKey chat = getApiKey B apiKey')
      /\ (forall k,
            apiKey' = Some k -> Js.truthy (Js.trim k) = true ->
            getApiKey B apiKey' = k
            /\ currentApiKey st2 = Some k
            /\ (exists chat, chatSession st2 = Some chat
                             /\ chat_apiKey chat = k)
            /\ (flag (EveResponse.isError (fst r2)) = false ->
                currentApiKey (snd r2) = Some k
                /\ exists chat, chatSession (snd r2) = Some chat
                                /\ chat_apiKey chat = k)).
Proof.
  intros r H. subst r.
  destruct (send_error_from_catch B _ _ _ _ _ _ _ _ _ _ H) as (e & st0 & E).
  rewrite E in *.
  destruct (onSendError_state e st0) as (_ & Hs & Hk).
  split; [exact Hs|]. split; [exact Hk|].
  intros message' history' att' force' apiKey' ep' settings' ctx' lang' st2 r2.
  assert (E2 : st2 = startChatWithHistory B history' apiKey' (Some settings')
                                          None lang' (snd (onSendError e st0)))
    by (apply ensureSession_after_drop; exact Hs).
  destruct (startChat_binds B history' apiKey' (Some settings') None lang'
                            (snd (onSendError e st0))) as (Bk & Bc).
  rewrite <- E2 in Bk, Bc.
  assert (Ok : flag (EveResponse.isError (fst r2)) = false ->
               currentApiKey (snd r2) = Some (getApiKey B apiKey')
               /\ exists chat, chatSession (snd r2) = Some chat
                               /\ chat_apiKey chat = getApiKey B apiKey').
  { intros Hok.
    destruct (send_ok_keeps_session B message' history' att' force' apiKey' ep'
                settings' ctx' lang' (snd (onSendError e st0)) Hok) as (S1 & S2).
    fold st2 in S1, S2. subst r2. rewrite S1, S2. split; assumption. }
  split; [exact E2|]. split; [exact Bk|]. split; [exact Bc|].
  split; [exact Ok|].
  intros k Ek Tk.
  assert (G : getApiKey B apiKey' = k)
    by (rewrite Ek; apply getApiKey_given; exact Tk).
  rewrite G in Bk, Bc, Ok. auto.
Qed.

Lemma failed_send_forces_reinit_witness :
  flag (EveResponse.isError (fst refusedFirstKey)) = true
  /\ EveResponse.errorType (fst refusedFirstKey) = Some QUOTA_EXCEEDED
  /\ chatSession (snd refusedFirstKey) = None
  /\ currentApiKey (snd refusedFirstKey) = None
  /\ flag (EveResponse.isError (fst retriedSecondKey)) = false
  /\ currentApiKey (snd retriedSecondKey) = Some "BBB"
  /\ exists chat, chatSession (snd retriedSecondKey) = Some chat
                  /\ chat_apiKey chat = "BBB".
Proof.
  split; [vm_compute; reflexivity|]. split; [vm_compute; reflexivity|].
  destruct (failed_send_forces_reinit firstKeyExhausted "hello"
              [sampleUserMessage] None false (Some "AAA")
              (Some "https://render.example") (sampleSettings true) "" english
              freshService)
    as (H1 & H2 & H3).
  - vm_compute; reflexivity.
  - split; [exact H1|]. split; [exact H2|].
    split; [vm_compute; reflexivity|].
    destruct (H3 "hello" [sampleUserMessage] None false (Some "BBB")
                 (Some "https://render.example") (sampleSettings true) ""
                 english) as (_ & _ & _ & _ & Hk).
    destruct (Hk "BBB" eq_refl eq_refl) as (_ & _ & _ & Hok).
    apply Hok. vm_compute; reflexivity.
Defined.

(* ------------------------------------------------------------------ *)
(** ** Completion of a render: what it may change *)

Lemma withImage_framed (url : string) : framed (withImage url).
Proof. intros m. repeat split. Qed.

Lemma withoutLoading_framed : framed withoutLoading.
Proof. intros m. repeat split. Qed.

Lemma patchMessage_nth messageId f (prev : list Message) :
  forall i m,
    nth_error prev i = Some m ->
    nth_error (patchMessage messageId f prev) i
    = Some (if String.eqb (id m) messageId then f m else m).
Proof.
  intros i m H. unfold patchMessage.
  rewrite nth_error_map, H. reflexivity.
Qed.

Lemma patchMessage_absent messageId f (prev : list Message) :
  (forall m, In m prev -> id m <> messageId) ->
  patchMessage messageId f prev = prev.
Proof.
  induction prev as [|m prev IH]; intros H; [reflexivity|].
  simpl. rewrite IH by (intros; apply H; right; assumption).
  assert (N : id m <> messageId) by (apply H; left; reflexivity).
  apply String.eqb_neq in N. rewrite N. reflexivity.
Qed.

Lemma onRenderSettled_patch messageId outcome (a : App) :
  exists f,
    framed f
    /\ messages (onRenderSettled messageId outcome a)
       = patchMessage messageId f (messages a).
Proof.
  unfold onRenderSettled.
  destruct outcome as [m|result].
  - exists withoutLoading. split; [apply withoutLoading_framed|reflexivity].
  - destruct (Js.truthy (imageUrl result)).
    + exists (withImage (imageUrl result)).
      split; [apply withImage_framed|].
      destruct (Js.truthy (enhancedPrompt result)); reflexivity.
    + exists withoutLoading. split; [apply withoutLoading_framed|reflexivity].
Qed.

(** C9: when a render settles, the handler keeps the number and the order of
    the messages; a message whose identifier is not the captured one is
    unchanged; one whose identifier is the captured one keeps its identifier,
    role, text and error flag, and is no longer loading; when no message
    has the captured identifier the list is unchanged.  The handler changes
    nothing else of the application but the visual memory. *)
Theorem render_patch_frame (messageId : string)
        (outcome : string + RenderResult) (a : App) :
  let a' := onRenderSettled messageId outcome a in
  List.length (messages a') = List.length (messages a)
  /\ (forall i m,
        nth_error (messages a) i = Some m ->
        exists m',
          nth_error (messages a') i = Some m'
          /\ id m' = id m /\ role m' = role m /\ text m' = text m
          /\ isError m' = isError m
          /\ (id m <> messageId -> m' = m)
          /\ (id m = messageId -> isImageLoading m' = Some false))
  /\ ((forall m, In m (messages a) -> id m <> messageId) ->
      messages a' = messages a)
  /\ (activeKeyId a' = activeKeyId a
      /\ storedActiveKeyId a' = storedActiveKeyId a
      /\ pendingRenders a' = pendingRenders a
      /\ service a' = service a /\ sends a' = sends a).
Proof.
  intros a'. destruct (onRenderSettled_patch messageId outcome a) as (f & F & E).
  fold a' in E. rewrite E. split; [|split; [|split]].
  - unfold patchMessage. apply length_map.
  - intros i m H. rewrite (patchMessage_nth _ _ _ _ _ H).
    destruct (String.eqb_spec (id m) messageId) as [Eq|Ne].
    + exists (f m). destruct (F m) as (F1 & F2 & F3 & F4 & F5).
      repeat split; auto. intros N; contradiction.
    + exists m. repeat split; auto. intros Eq; contradiction.
  - apply patchMessage_absent.
  - subst a'. unfold onRenderSettled.
    destruct outcome as [m|result]; [repeat split|].
    destruct (Js.truthy (imageUrl result)); [|repeat split].
    destruct (Js.truthy (enhancedPrompt result)); repeat split.
Qed.

(* ------------------------------------------------------------------ *)
(** ** The two stages of a render *)

Lemma rephrase_requests (B : Backend) um k ctx ty st :
  requests (snd (rephrasePromptForGradio B um k ctx ty st)) = S (requests st).
Proof.
  unfold rephrasePromptForGradio. simpl.
  destruct (models_generateText B _ _ _); reflexivity.
Qed.

Lemma generateVisualSelfie_stage2 (B : Backend) description apiKey ep settings
      mem type st :
  let s1 := rephrasePromptForGradio B description apiKey (Some mem) type st in
  fst (generateVisualSelfie B description apiKey ep settings mem type st)
  = match fst (generateWithGradio B (fst s1 ++ IMAGE_QUALITY_SUFFIX)%string ep
                                  settings (snd s1)) with
    | inl m => inl m
    | inr u => inr (mkRender u (fst s1))
    end.
Proof.
  unfold generateVisualSelfie.
  destruct (rephrasePromptForGradio B description apiKey (Some mem) type st)
    as [enh st1]. simpl.
  destruct (generateWithGradio B _ ep settings st1) as [[m|u] st2]; reflexivity.
Qed.

(** C7, as the code has it: the call fails, with the message of the failure,
    when the second stage fails (no endpoint, a request that throws, an answer
    without image), and returns the image with the rephrased text when the
    second stage succeeds; a failure of the rephrasing request does not fail
    the call: the neutral portrait stands in for the rephrased text. *)
Theorem render_fails_on_stage2 (B : Backend) description apiKey ep settings mem
        type st :
  let instruction :=
    mkInstruction type (Js.orElse (Some mem) "None") description in
  let enhanced :=
    fst (rephrasePromptForGradio B description apiKey (Some mem) type st) in
  let prompt := (enhanced ++ IMAGE_QUALITY_SUFFIX)%string in
  let r := fst (generateVisualSelfie B description apiKey ep settings mem type
                                     st) in
  (endpointMissing ep = true -> r = inl "Gradio endpoint not configured.")
  /\ (forall url e,
        ep = Some url -> endpointMissing ep = false ->
        gradio_predict B (S (requests st)) url prompt settings = inl e ->
        r = inl (getErrorMessage e))
  /\ (forall url data,
        ep = Some url -> endpointMissing ep = false ->
        gradio_predict B (S (requests st)) url prompt settings = inr data ->
        firstImage data = None ->
        r = inl "No image URL returned.")
  /\ (forall url data u,
        ep = Some url -> endpointMissing ep = false ->
        gradio_predict B (S (requests st)) url prompt settings = inr data ->
        firstImage data = Some u ->
        r = inr (mkRender u enhanced))
  /\ (forall e,
        models_generateText B (requests st) (getApiKey B apiKey) instruction
        = inl e ->
        enhanced = neutralPortrait).
Proof.
  intros instruction enhanced prompt r.
  assert (Er := generateVisualSelfie_stage2 B description apiKey ep settings mem
                                            type st).
  cbv zeta in Er. fold enhanced in Er. fold prompt in Er. fold r in Er.
  pose proof (rephrase_requests B description apiKey (Some mem) type st) as Rq.
  set (st1 := snd (rephrasePromptForGradio B description apiKey (Some mem) type st))
    in *.
  unfold generateWithGradio in Er.
  split; [|split; [|split; [|split]]].
  - intros Hm. rewrite Er. destruct ep as [url|]; [|reflexivity].
    rewrite Hm. reflexivity.
  - intros url e -> Hm Hg. rewrite Er, Hm. simpl. rewrite Rq, Hg. reflexivity.
  - intros url data -> Hm Hg Hf. rewrite Er, Hm. simpl.
    rewrite Rq, Hg, Hf. reflexivity.
  - intros url data u -> Hm Hg Hf. rewrite Er, Hm. simpl.
    rewrite Rq, Hg, Hf. reflexivity.
  - intros e He. subst enhanced instruction.
    unfold rephrasePromptForGradio, nextRequest. cbv beta iota zeta.
    rewrite He. reflexivity.
Qed.

Lemma render_fails_on_stage2_witness :
  gradio_predict renderFailingBackend 1 "https://render.example"
    ("A calm beach at dusk, seen from the shore." ++ IMAGE_QUALITY_SUFFIX)%string
    (sampleSettings true) = inl (ThrownString "GPU quota exhausted")
  /\ fst (sampleRender renderFailingBackend) = inl "GPU quota exhausted".
Proof.
  split; [reflexivity|].
  destruct (render_fails_on_stage2 renderFailingBackend "a beach" (Some "AAA")
              (Some "https://render.example") (sampleSettings true) "" scene
              freshService) as (_ & H & _).
  apply (H "https://render.example" (ThrownString "GPU quota exhausted"));
    reflexivity.
Defined.

(** C7 as stated fails: the rephrasing request is refused, and the render
    still returns an image. *)
Lemma render_survives_stage1_failure :
  models_generateText rephraseFailingBackend 0 "AAA"
                      (mkInstruction scene "None" "a beach")
  = inl (ThrownError "503 model overloaded")
  /\ fst (sampleRender rephraseFailingBackend)
     = inr (mkRender sampleImageUrl neutralPortrait).
Proof. split; vm_compute; reflexivity. Qed.

(* ------------------------------------------------------------------ *)
(** ** Directives and the counter *)

Lemma directiveBranch_counter ai message reply n :
  let d := directiveBranch ai message reply n in
  (fst (fst d) <> None -> snd d = 0) /\ (fst (fst d) = None -> snd d = S n).
Proof.
  unfold directiveBranch.
  destruct ai; [|simpl; split; congruence].
  destruct (findTag "SELFIE" reply); [simpl; split; congruence|].
  destruct (findTag "SCENE" reply); [|simpl; split; congruence].
  destruct (isUserRequestingImage message || (4 <=? n));
    simpl; split; congruence.
Qed.

Lemma scene_gate message reply n :
  isUserRequestingImage message = false ->
  findTag "SELFIE" reply = None ->
  findTag "SCENE" reply <> None ->
  (fst (fst (directiveBranch true message reply n)) <> None <-> 4 <= n).
Proof.
  intros Hu Hs Hc. unfold directiveBranch. rewrite Hs, Hu.
  destruct (findTag "SCENE" reply) as [cap|]; [|contradiction].
  rewrite orb_false_l.
  destruct (Nat.leb_spec 4 n) as [L|L]; cbn [fst snd]; split; intros H.
  - exact L.
  - intros X. discriminate X.
  - exfalso. apply H. reflexivity.
  - exfalso. lia.
Qed.

Lemma countAfter_textOnly ai (l : list (string * string)) :
  forall n, allTextOnly ai l n -> countAfter ai l n = n + List.length l.
Proof.
  induction l as [|[message reply] l IH]; intros n H; simpl.
  - lia.
  - destruct H as (H1 & H2). unfold textOnly in H1. simpl in H1.
    destruct (directiveBranch_counter ai message reply n) as (_ & E).
    rewrite (E H1), (IH _ H2). lia.
Qed.

Lemma ensureSession_count (B : Backend) history apiKey settings lang st :
  textOnlyMessageCount (ensureSession B history apiKey settings lang st)
  = textOnlyMessageCount st.
Proof.
  unfold ensureSession. destruct (sessionStale _ _ _); reflexivity.
Qed.

(** The text of a reply as it is returned for display. *)
Lemma onReply_text message resultText ep settings st :
  let t := EveResponse.text (fst (onReply message resultText ep settings st)) in
  t = stripDirectives (Js.orElse resultText "")
  \/ t = (stripDirectives (Js.orElse resultText "") ++ apology)%string.
Proof.
  unfold onReply.
  destruct (directiveBranch _ _ _ _) as [[vp vt] n].
  destruct (Js.truthyOpt vp && endpointMissing ep); simpl; auto.
Qed.

(** A send without forced image generation whose chat request is answered. *)
Lemma send_chat_reply (B : Backend) message history att apiKey ep settings ctx
      lang st reply :
  (forall n c m, chat_sendMessage B n c m = inr reply) ->
  sendMessageToEve B message history att false apiKey ep settings ctx lang st
  = onReply message reply ep settings
            (snd (nextRequest (ensureSession B history apiKey settings lang st))).
Proof.
  intros H. unfold sendMessageToEve.
  rewrite !andb_false_r.
  destruct (ensureSession_some B history apiKey settings lang st) as (c & Ec).
  rewrite Ec. rewrite Ec. unfold nextRequest. cbv beta iota zeta.
  rewrite H. reflexivity.
Qed.

(** C3, as the code has it: the counter of the module as loaded is 4; a reply
    sets it to 0 when a directive fires and adds one otherwise; with image
    generation on, no trigger word in the message of the user and no SELFIE
    tag in the reply, a SCENE tag fires exactly when the counter is at least
    4; after a firing, a series of replies on which nothing fires leaves the
    counter at their number; and the counter and the visual prompt of a send
    are those of this branch. *)
Theorem scene_gate_counter :
  textOnlyMessageCount freshService = 4
  /\ (forall ai message reply n,
        let d := directiveBranch ai message reply n in
        (fst (fst d) <> None -> snd d = 0)
        /\ (fst (fst d) = None -> snd d = S n))
  /\ (forall message reply n,
        isUserRequestingImage message = false ->
        findTag "SELFIE" reply = None ->
        findTag "SCENE" reply <> None ->
        (fst (fst (directiveBranch true message reply n)) <> None <-> 4 <= n))
  /\ (forall ai l, allTextOnly ai l 0 -> countAfter ai l 0 = List.length l)
  /\ (forall (B : Backend) message history att apiKey ep settings ctx lang st
             reply,
        (forall n c m, chat_sendMessage B n c m = inr reply) ->
        let r := sendMessageToEve B message history att false apiKey ep settings
                                  ctx lang st in
        let d := directiveBranch (aiImageGeneration settings) message
                                 (Js.orElse reply "") (textOnlyMessageCount st) in
        textOnlyMessageCount (snd r) = snd d
        /\ (endpointMissing ep = false ->
            EveResponse.visualPrompt (fst r) = fst (fst d))).
Proof.
  split; [reflexivity|]. split; [apply directiveBranch_counter|].
  split; [apply scene_gate|]. split.
  - intros ai l H. apply (countAfter_textOnly ai l 0 H).
  - intros B message history att apiKey ep settings ctx lang st reply H r d.
    subst r. rewrite (send_chat_reply B _ _ _ _ _ _ _ _ _ _ H).
    unfold onReply. cbn [nextRequest snd textOnlyMessageCount].
    rewrite ensureSession_count. fold d.
    destruct d as [[vp vt] n]. simpl.
    destruct (Js.truthyOpt vp && endpointMissing ep) eqn:E; simpl.
    + split; [reflexivity|]. intros Hm. rewrite Hm, andb_false_r in E.
      discriminate.
    + split; [reflexivity|]. reflexivity.
Qed.

Lemma scene_gate_counter_witness :
  isUserRequestingImage "hello" = false
  /\ findTag "SELFIE" "Look! [SCENE: a beach]" = None
  /\ findTag "SCENE" "Look! [SCENE: a beach]" <> None
  /\ fst (fst (directiveBranch true "hello" "Look! [SCENE: a beach]" 4)) <> None.
Proof.
  split; [reflexivity|]. split; [reflexivity|]. split; [discriminate|].
  destruct scene_gate_counter as (_ & _ & H & _).
  apply (H "hello" "Look! [SCENE: a beach]" 4);
    [reflexivity | reflexivity | discriminate | lia].
Defined.

(** C3 as stated fails: on the module as loaded no reply has been given yet,
    and a SCENE tag fires on the first reply, without any trigger word. *)
Lemma scene_fires_on_first_reply :
  requests freshService = 0
  /\ isUserRequestingImage "hello" = false
  /\ EveResponse.visualPrompt (fst (firstSend true "Look! [SCENE: a beach]"))
     = Some "a beach"
  /\ EveResponse.visualType (fst (firstSend true "Look! [SCENE: a beach]"))
     = Some scene
  /\ textOnlyMessageCount (snd (firstSend true "Look! [SCENE: a beach]")) = 0.
Proof. repeat split; vm_compute; reflexivity. Qed.

(** C6 fails on the code: removing a SCENE tag from inside the letters of a
    SELFIE tag leaves a SELFIE tag in the text returned for display, with
    image generation on and off. *)
Theorem nested_tag_survives_stripping :
  EveResponse.text (fst (firstSend true "[SELF[SCENE]IE]")) = "[SELFIE]"
  /\ EveResponse.text (fst (firstSend false "[SELF[SCENE]IE]")) = "[SELFIE]"
  /\ findTag "SELFIE" "[SELFIE]" = Some None.
Proof. repeat split; vm_compute; reflexivity. Qed.

(** A description that runs over two lines is not taken for a tag at all: it
    neither fires nor is removed. *)
Lemma two_line_tag_stays :
  let reply := ("See [SCENE: a" ++ String Js.LF "b]")%string in
  findTag "SCENE" reply = None
  /\ EveResponse.text (fst (firstSend true reply)) = reply.
Proof. split; vm_compute; reflexivity. Qed.

(* ------------------------------------------------------------------ *)
(** ** Attachments through normalisation *)

Lemma wordChar_plain (c : ascii) :
  Js.isWordChar c = true ->
  Js.isLineTerminator c = false /\ Ascii.eqb c ";" = false.
Proof.
  destruct c as [[] [] [] [] [] [] [] []]; vm_compute; intros H;
    try discriminate H; split; reflexivity.
Qed.

Lemma base64Char_plain (c : ascii) :
  isBase64Char c = true -> Ascii.eqb c ";" = false.
Proof.
  destruct c as [[] [] [] [] [] [] [] []]; vm_compute; intros H;
    try discriminate H; reflexivity.
Qed.

Lemma span_word (w r : string) :
  allChars Js.isWordChar w = true ->
  Js.span Js.isWordChar (w ++ String ";" r) = (w, String ";" r).
Proof.
  induction w as [|c w IH]; intros H; [reflexivity|].
  simpl in *. apply andb_true_iff in H as [Hc Hw].
  rewrite Hc, (IH Hw). reflexivity.
Qed.

Lemma greedyUpTo_none (s : string) :
  allChars (fun c => negb (Ascii.eqb c ";")) s = true ->
  Js.greedyUpTo ";base64," s = None.
Proof.
  induction s as [|c s IH]; intros H; [reflexivity|].
  simpl in H. apply andb_true_iff in H as [Hc Hs].
  apply negb_true_iff in Hc.
  cbn [Js.greedyUpTo]. rewrite (IH Hs).
  assert (E : Js.startsWith (String c s) ";base64," = false).
  { unfold Js.startsWith. cbn [Js.stripPrefix].
    rewrite Ascii.eqb_sym, Hc. reflexivity. }
  rewrite E. destruct (Js.isLineTerminator c); reflexivity.
Qed.

Lemma greedyUpTo_exact (x payload : string) :
  allChars (fun c => negb (Js.isLineTerminator c) && negb (Ascii.eqb c ";")) x
  = true ->
  allChars (fun c => negb (Ascii.eqb c ";")) payload = true ->
  Js.greedyUpTo ";base64," (x ++ ";base64," ++ payload) = Some x.
Proof.
  intros Hx Hp. induction x as [|c x IH].
  - change ("" ++ ";base64," ++ payload)%string
      with (String ";" ("base64," ++ payload)).
    cbn [Js.greedyUpTo].
    rewrite greedyUpTo_none by exact Hp.
    assert (E : Js.startsWith (String ";" ("base64," ++ payload)) ";base64,"
                = true)
      by (apply startsWith_spec; exists payload; reflexivity).
    rewrite E. reflexivity.
  - simpl in Hx. apply andb_true_iff in Hx as [Hc Hx].
    apply andb_true_iff in Hc as [Hl _]. apply negb_true_iff in Hl.
    change (String c x ++ ";base64," ++ payload)%string
      with (String c (x ++ ";base64," ++ payload)).
    cbn [Js.greedyUpTo]. rewrite Hl, (IH Hx). reflexivity.
Qed.

Lemma allChars_impl (f g : ascii -> bool) (s : string) :
  (forall c, f c = true -> g c = true) ->
  allChars f s = true -> allChars g s = true.
Proof.
  intros I. induction s as [|c s IH]; simpl; [reflexivity|].
  intros H. apply andb_true_iff in H as [Hc Hs].
  rewrite (I c Hc), (IH Hs). reflexivity.
Qed.

(** Where the encoding does come through: an image type made of word
    characters, and a base64 payload. *)
Lemma word_mime_roundtrips (w payload : string) :
  allChars Js.isWordChar w = true -> w <> ""%string ->
  allChars isBase64Char payload = true -> payload <> ""%string ->
  imageParts (Some (dataUrl ("image/" ++ w) payload))
  = [InlineData ("image/" ++ w) payload].
Proof.
  intros Hw Nw Hp Np.
  assert (Hp' : allChars (fun c => negb (Ascii.eqb c ";")) payload = true).
  { eapply allChars_impl; [|exact Hp]. intros c Hc.
    rewrite (base64Char_plain c Hc). reflexivity. }
  assert (Hw' : allChars (fun c => negb (Js.isLineTerminator c)
                                   && negb (Ascii.eqb c ";"))
                         ("image/" ++ w) = true).
  { change (allChars (fun c => negb (Js.isLineTerminator c)
                               && negb (Ascii.eqb c ";")) w = true).
    eapply allChars_impl; [|exact Hw]. intros c Hc.
    destruct (wordChar_plain c Hc) as (E1 & E2). rewrite E1, E2. reflexivity. }
  assert (Em : dataUrlMime (dataUrl ("image/" ++ w) payload)
               = Some ("image/" ++ w)%string).
  { unfold dataUrlMime, dataUrl.
    change (Js.stripPrefix "data:"
              ("data:" ++ ("image/" ++ w) ++ ";base64," ++ payload))
      with (Some (("image/" ++ w) ++ ";base64," ++ payload)%string).
    apply greedyUpTo_exact; assumption. }
  assert (Ed : stripImagePrefix (dataUrl ("image/" ++ w) payload) = payload).
  { unfold stripImagePrefix, dataUrl.
    change (Js.stripPrefix "data:image/"
              ("data:" ++ ("image/" ++ w) ++ ";base64," ++ payload))
      with (Some (w ++ String ";" ("base64," ++ payload))%string).
    cbv beta iota.
    rewrite (span_word w _ Hw).
    destruct w as [|c w]; [contradiction|]. reflexivity. }
  unfold imageParts. rewrite Em, Ed.
  destruct payload as [|p payload]; [contradiction|]. reflexivity.
Qed.

(** C8 fails on the code: for an attachment of type image/svg+xml the part
    carries the whole encoded string where the payload should be. *)
Theorem svg_attachment_not_roundtripped :
  formatHistoryForGemini
    [mkMessage "u1" user "" (Some (dataUrl "image/svg+xml" "PHN2Zz48L3N2Zz4="))
               None None]
  = [Content.mk user
       [InlineData "image/svg+xml" (dataUrl "image/svg+xml" "PHN2Zz48L3N2Zz4=")]]
  /\ dataUrl "image/svg+xml" "PHN2Zz48L3N2Zz4=" <> "PHN2Zz48L3N2Zz4="%string.
Proof. split; [vm_compute; reflexivity | discriminate]. Qed.

(* ------------------------------------------------------------------ *)
(** ** The dispatch loop *)

Lemma optEqb_eq (a b : option string) : optEqb a b = true <-> a = b.
Proof.
  destruct a as [x|], b as [y|]; simpl; try (split; congruence).
  rewrite String.eqb_eq. split; congruence.
Qed.

Lemma findIndex_nth (keys : list ApiKeyDef) :
  forall i k,
    NoDup (map key_id keys) ->
    nth_error keys i = Some k ->
    findIndex (Some (key_id k)) keys = Some i.
Proof.
  induction keys as [|a keys IH]; intros [|i] k ND H; simpl in *;
    try discriminate.
  - inversion H; subst. rewrite String.eqb_refl. reflexivity.
  - inversion ND as [|? ? Hnot ND']; subst.
    assert (N : key_id a <> key_id k).
    { intros E. apply Hnot. rewrite E. apply in_map.
      eapply nth_error_In; eauto. }
    apply String.eqb_neq in N. rewrite N, (IH i k ND' H). reflexivity.
Qed.

Lemma findIndex_Some (keys : list ApiKeyDef) (kid : option string) :
  forall i,
    findIndex kid keys = Some i ->
    exists k, nth_error keys i = Some k /\ kid = Some (key_id k).
Proof.
  induction keys as [|a keys IH]; intros i H; cbn [findIndex] in H;
    [discriminate|].
  destruct (optEqb (Some (key_id a)) kid) eqn:E.
  - inversion H; subst. apply optEqb_eq in E. exists a.
    split; [reflexivity | congruence].
  - destruct (findIndex kid keys) as [j|]; [|discriminate].
    inversion H; subst. destruct (IH j eq_refl) as (k & Hk & Ek).
    exists k. split; assumption.
Qed.

Lemma findIndex_None (keys : list ApiKeyDef) (kid : option string) :
  findIndex kid keys = None ->
  forall k, In k keys -> optEqb (Some (key_id k)) kid = false.
Proof.
  induction keys as [|a keys IH]; intros H k Hin; cbn [findIndex In] in *;
    [contradiction|].
  destruct (optEqb (Some (key_id a)) kid) eqn:E; [discriminate|].
  destruct (findIndex kid keys); [discriminate|].
  destruct Hin as [->|Hin]; auto.
Qed.

Lemma nth_ids_distinct (keys : list ApiKeyDef) i j k k' :
  NoDup (map key_id keys) ->
  nth_error keys i = Some k -> nth_error keys j = Some k' ->
  key_id k = key_id k' -> i = j.
Proof.
  intros ND Hi Hj E.
  apply (proj1 (NoDup_nth_error (map key_id keys)) ND).
  - rewrite length_map. apply nth_error_Some. congruence.
  - rewrite !nth_error_map, Hi, Hj. simpl. congruence.
Qed.

Lemma mod_wraps (i t n : nat) :
  i < n -> S t < n -> (i + S t) mod n <> i.
Proof.
  intros Hi Ht E.
  pose proof (Nat.div_mod_eq (i + S t) n) as D. rewrite E in D.
  destruct ((i + S t) / n) as [|q]; nia.
Qed.

Section Rotation.

Variable dateNow : nat -> string.
Variable captured : Captured.
Variable send : SendFn.

Let keys := apiKeys captured.
Let n := List.length keys.

(** The message an exhausted or failed dispatch appends. *)
Let errorTurn (a : App) (t : string) : Message :=
  mkMessage (dateNow (clockReads a)) model t None (Some true) None.

Let nextIndexOf (kid : option string) : nat :=
  (match findIndex kid keys with Some i => i + 1 | None => 0 end) mod n.

Lemma appendError_messages (t : string) (a : App) :
  messages (appendError dateNow t a) = messages a ++ [errorTurn a t]
  /\ sends (appendError dateNow t a) = sends a
  /\ activeKeyId (appendError dateNow t a) = activeKeyId a
  /\ storedActiveKeyId (appendError dateNow t a) = storedActiveKeyId a.
Proof. repeat split. Qed.

Lemma totalKeys_pos : 1 <= totalKeys captured.
Proof.
  unfold totalKeys. destruct (Nat.ltb_spec 0 (List.length (apiKeys captured))); lia.
Qed.

Lemma totalKeys_many : 1 <= n -> totalKeys captured = n.
Proof.
  intros H. unfold totalKeys. fold keys. fold n.
  destruct (Nat.ltb_spec 0 n); [reflexivity | lia].
Qed.

Lemma isQuotaError_isError (r : EveResponse.t) :
  isQuotaError r = true -> flag (EveResponse.isError r) = true.
Proof. unfold isQuotaError. intros H. apply andb_true_iff in H as [H _]. exact H. Qed.

(** The state after a call of the send: only the module and the record of
    the sends differ. *)
Let sent (k : option string) (sv : Service) (a : App) : App :=
  mkApp (messages a) (activeKeyId a) (storedActiveKeyId a) (visualMemory a)
        (pendingRenders a) sv (sends a ++ [k]) (toasts a) (clockReads a).

Lemma callSend_eq (k : option string) (a : App) :
  callSend send k a
  = (fst (send k (service a)), sent k (snd (send k (service a))) a).
Proof.
  unfold callSend. destruct (send k (service a)). reflexivity.
Qed.

Section AllQuota.

Hypothesis Hq : allQuota send.
Hypothesis Hn : 2 <= n.
Hypothesis Hd : NoDup (map key_id keys).

(** One turn of the loop whose send is refused for quota. *)
Lemma rotation_turn (fuel : nat) (init kid : option string) (t : nat) (a : App) :
  t < n ->
  exists a1,
    messages a1 = messages a /\ clockReads a1 = clockReads a
    /\ List.length (sends a1) = S (List.length (sends a))
    /\ rotationLoop dateNow captured send (S fuel) init kid t a
       = match nth_error keys (nextIndexOf kid) with
         | Some nextKey =>
             if optEqb (Some (key_id nextKey)) init && (0 <? t)
             then Some (appendError dateNow exhaustedShort a1)
             else rotationLoop dateNow captured send fuel init
                    (Some (key_id nextKey)) (S t)
                    (switchActiveKey (key_id nextKey)
                       (showToast ("Quota exceeded. Trying key: "
                                   ++ key_label nextKey)%string a1))
         | None => Some (appendError dateNow "Signal lost." a1)
         end.
Proof.
  intros Ht.
  set (k := option_map key (findKey kid (apiKeys captured))).
  exists (sent k (snd (send k (service a))) a).
  split; [reflexivity|]. split; [reflexivity|]. split.
  - simpl. rewrite length_app. simpl. lia.
  - cbn [rotationLoop]. rewrite totalKeys_many by lia.
    destruct (Nat.ltb_spec t n) as [_|]; [|lia].
    fold k. rewrite callSend_eq.
    destruct (Hq k (service a)) as (r & Er & Qr). rewrite Er, Qr.
    fold keys. fold n.
    destruct (Nat.ltb_spec 1 n) as [_|]; [|lia].
    reflexivity.
Qed.

(** The loop when the dispatch started from one of the configured keys, the
    one at [i0]: after [t] turns it is at the key [t] places further. *)
Lemma rotation_from_known (i0 : nat) (k0 : ApiKeyDef) :
  nth_error keys i0 = Some k0 ->
  forall fuel t kt a,
    t < n -> n - t <= fuel ->
    nth_error keys ((i0 + t) mod n) = Some kt ->
    exists a',
      rotationLoop dateNow captured send fuel (Some (key_id k0))
                   (Some (key_id kt)) t a = Some a'
      /\ List.length (sends a') = List.length (sends a) + (n - t)
      /\ messages a' = messages a ++ [errorTurn a exhaustedShort].
Proof.
  intros H0.
  assert (Hi0 : i0 < n) by (apply nth_error_Some; fold keys in H0; congruence).
  induction fuel as [|fuel IH]; intros t kt a Ht Hf Hkt; [lia|].
  destruct (rotation_turn fuel (Some (key_id k0)) (Some (key_id kt)) t a Ht)
    as (a1 & Em & Ec & Es & E).
  rewrite E. clear E.
  assert (En : nextIndexOf (Some (key_id kt)) = (i0 + S t) mod n).
  { unfold nextIndexOf. rewrite (findIndex_nth keys _ kt Hd Hkt).
    rewrite Nat.Div0.add_mod_idemp_l. f_equal. lia. }
  rewrite En.
  destruct (nth_error keys ((i0 + S t) mod n)) as [nk|] eqn:Enk.
  2:{ apply nth_error_None in Enk. fold n in Enk.
      pose proof (Nat.mod_upper_bound (i0 + S t) n). lia. }
  destruct (Nat.eq_dec (S t) n) as [Last|More].
  - (* the key after this one is the first one again *)
    assert (Ek : nk = k0).
    { rewrite Last in Enk.
      replace (i0 + n) with (i0 + 1 * n) in Enk by lia.
      rewrite Nat.Div0.mod_add, Nat.mod_small in Enk by lia. congruence. }
    subst nk. simpl optEqb. rewrite String.eqb_refl.
    destruct (Nat.ltb_spec 0 t) as [_|]; [|lia]. simpl.
    eexists. split; [reflexivity|].
    destruct (appendError_messages exhaustedShort a1) as (M & S' & _).
    rewrite M, S', Em, Es. unfold errorTurn. rewrite Ec.
    split; [lia | reflexivity].
  - assert (Nk : String.eqb (key_id nk) (key_id k0) = false).
    { apply String.eqb_neq. intros Eid.
      pose proof (nth_ids_distinct keys _ _ _ _ Hd Enk H0 Eid) as X.
      apply (mod_wraps i0 t n); [exact Hi0 | lia | exact X]. }
    simpl optEqb. rewrite Nk. simpl.
    destruct (IH (S t) nk
                 (switchActiveKey (key_id nk)
                    (showToast ("Quota exceeded. Trying key: "
                                ++ key_label nk)%string a1)))
      as (a' & R & Ls & Ms); [lia | lia | exact Enk |].
    exists a'. split; [exact R|]. simpl in Ls, Ms. unfold errorTurn in *.
    simpl in Ms. rewrite Ls, Ms, Es, Em, Ec. split; [lia | reflexivity].
Qed.

(** The loop when the dispatch started from no configured key: after the
    first turn it walks the keys from the first one on. *)
Lemma rotation_from_unknown (init : option string) :
  findIndex init keys = None ->
  forall fuel t k a,
    1 <= t -> t <= n -> n - t <= fuel ->
    nth_error keys (t - 1) = Some k ->
    exists a',
      rotationLoop dateNow captured send fuel init (Some (key_id k)) t a
      = Some a'
      /\ List.length (sends a') = List.length (sends a) + (n - t)
      /\ messages a' = messages a ++ [errorTurn a exhaustedLong].
Proof.
  intros Hnone.
  induction fuel as [|fuel IH]; intros t k a H1 Ht Hf Hk.
  - assert (t = n) by lia. subst t.
    exists (appendError dateNow exhaustedLong a).
    destruct (appendError_messages exhaustedLong a) as (M & S' & _).
    rewrite M, S'. split; [|split; [lia|reflexivity]].
    cbn [rotationLoop]. rewrite totalKeys_many by lia.
    rewrite Nat.ltb_irrefl, Nat.leb_refl. reflexivity.
  - destruct (Nat.eq_dec t n) as [->|Hlt].
    + exists (appendError dateNow exhaustedLong a).
      destruct (appendError_messages exhaustedLong a) as (M & S' & _).
      rewrite M, S'. split; [|split; [lia|reflexivity]].
      cbn [rotationLoop]. rewrite totalKeys_many by lia.
      rewrite Nat.ltb_irrefl, Nat.leb_refl. reflexivity.
    + destruct (rotation_turn fuel init (Some (key_id k)) t a)
        as (a1 & Em & Ec & Es & E); [lia|].
      rewrite E. clear E.
      assert (En : nextIndexOf (Some (key_id k)) = t).
      { unfold nextIndexOf. rewrite (findIndex_nth keys _ k Hd Hk).
        replace (t - 1 + 1) with t by lia. apply Nat.mod_small. lia. }
      rewrite En.
      destruct (nth_error keys t) as [nk|] eqn:Enk.
      2:{ apply nth_error_None in Enk. fold n in Enk. lia. }
      rewrite (findIndex_None keys init Hnone nk)
        by (eapply nth_error_In; eauto).
      simpl.
      destruct (IH (S t) nk
                   (switchActiveKey (key_id nk)
                      (showToast ("Quota exceeded. Trying key: "
                                  ++ key_label nk)%string a1)))
        as (a' & R & Ls & Ms); [lia | lia | lia | |].
      { replace (S t - 1) with t by lia. exact Enk. }
      exists a'. split; [exact R|]. simpl in Ls, Ms. unfold errorTurn in *.
      simpl in Ms. rewrite Ls, Ms, Es, Em, Ec. split; [lia | reflexivity].
Qed.

(** All the sends refused for quota, two keys or more, no identifier twice:
    as many sends as keys, then the message of exhaustion. *)
Lemma rotation_exhausts (initialKeyId : option string) (a : App) :
  exists a' t,
    processMessageSending dateNow captured send initialKeyId a = Some a'
    /\ List.length (sends a') = List.length (sends a) + n
    /\ messages a' = messages a ++ [errorTurn a t]
    /\ (t = exhaustedShort \/ t = exhaustedLong).
Proof.
  unfold processMessageSending. rewrite totalKeys_many by lia.
  destruct (findIndex initialKeyId keys) as [i0|] eqn:Ei.
  - destruct (findIndex_Some keys initialKeyId i0 Ei) as (k0 & H0 & ->).
    destruct (rotation_from_known i0 k0 H0 n 0 k0 a) as (a' & R & Ls & Ms).
    + lia.
    + lia.
    + rewrite Nat.add_0_r, Nat.mod_small; [exact H0|].
      apply nth_error_Some. fold keys in H0. congruence.
    + exists a', exhaustedShort. rewrite Nat.sub_0_r in Ls. auto.
  - replace (rotationLoop dateNow captured send n initialKeyId initialKeyId 0 a)
      with (rotationLoop dateNow captured send (S (n - 1)) initialKeyId
                         initialKeyId 0 a)
      by (f_equal; lia).
    destruct (rotation_turn (n - 1) initialKeyId initialKeyId 0 a)
      as (a1 & Em & Ec & Es & E); [lia|].
    rewrite E. clear E.
    unfold nextIndexOf. rewrite Ei, Nat.Div0.mod_0_l.
    destruct (nth_error keys 0) as [nk|] eqn:Enk.
    2:{ apply nth_error_None in Enk. fold n in Enk. lia. }
    rewrite andb_false_r.
    destruct (rotation_from_unknown initialKeyId Ei (n - 1) 1 nk
                (switchActiveKey (key_id nk)
                   (showToast ("Quota exceeded. Trying key: "
                               ++ key_label nk)%string a1)))
      as (a' & R & Ls & Ms); [lia | lia | lia | exact Enk |].
    exists a', exhaustedLong. split; [exact R|].
    simpl in Ls, Ms. unfold errorTurn in *. simpl in Ms.
    rewrite Ls, Ms, Es, Em, Ec. split; [lia|]. split; [reflexivity|auto].
Qed.

End AllQuota.

(** A first send that resolves and is not rotated ends the dispatch. *)
Lemma first_send_settles (initialKeyId : option string) (a : App)
      (r : EveResponse.t) :
  let k := option_map key (findKey initialKeyId keys) in
  fst (send k (service a)) = Resolved r ->
  isQuotaError r && (1 <? n) = false ->
  processMessageSending dateNow captured send initialKeyId a
  = Some (settle dateNow captured r (sent k (snd (send k (service a))) a)).
Proof.
  intros k Er Hnot. unfold processMessageSending.
  pose proof totalKeys_pos as P.
  destruct (totalKeys captured) as [|m] eqn:Et; [lia|].
  cbn [rotationLoop]. rewrite Et. simpl Nat.ltb.
  fold keys. fold k. rewrite callSend_eq, Er. fold n. rewrite Hnot.
  reflexivity.
Qed.

End Rotation.

(** The loop ends: the fuel it is given is enough, whatever the sends do. *)
Lemma rotationLoop_total (dateNow : nat -> string) (captured : Captured)
      (send : SendFn) (init : option string) (fuel : nat) :
  forall kid t a,
    totalKeys captured - t <= fuel ->
    exists a', rotationLoop dateNow captured send fuel init kid t a = Some a'.
Proof.
  induction fuel as [|fuel IH]; intros kid t a Hf.
  - cbn [rotationLoop].
    destruct (Nat.ltb_spec t (totalKeys captured)); [lia|].
    destruct (totalKeys captured <=? t); eauto.
  - cbn [rotationLoop].
    destruct (Nat.ltb_spec t (totalKeys captured)).
    2:{ destruct (totalKeys captured <=? t); eauto. }
    destruct (callSend send _ a) as [[r|] a1]; [|eauto].
    destruct (isQuotaError r && (1 <? List.length (apiKeys captured)));
      [|eauto].
    destruct (nth_error (apiKeys captured) _) as [nk|]; [|eauto].
    destruct (optEqb (Some (key_id nk)) init && (0 <? t)); [eauto|].
    apply IH. lia.
Qed.

Lemma processMessageSending_total (dateNow : nat -> string)
      (captured : Captured) (send : SendFn) (initialKeyId : option string)
      (a : App) :
  exists a',
    processMessageSending dateNow captured send initialKeyId a = Some a'.
Proof. apply rotationLoop_total. lia. Qed.

(** C1, as the code has it.  With every send refused for quota: two keys or
    more, of distinct identifiers, give as many sends as there are keys and
    then the message of exhaustion; one key, or none, gives one send and the
    message of that refusal.  A first send that fails otherwise than for
    quota gives one send, its message, and leaves the active key alone. *)
Theorem rotation_attempts (dateNow : nat -> string) (captured : Captured)
        (send : SendFn) (initialKeyId : option string) (a : App) :
  let keys := apiKeys captured in
  let N := List.length keys in
  let first := option_map key (findKey initialKeyId keys) in
  let turn := fun t =>
    mkMessage (dateNow (clockReads a)) model t None (Some true) None in
  let result := processMessageSending dateNow captured send initialKeyId a in
  (allQuota send -> 2 <= N -> NoDup (map key_id keys) ->
   exists a' t,
     result = Some a'
     /\ List.length (sends a') = List.length (sends a) + N
     /\ messages a' = messages a ++ [turn t]
     /\ (t = exhaustedShort \/ t = exhaustedLong))
  /\ (allQuota send -> N <= 1 ->
      exists a' r,
        result = Some a'
        /\ fst (send first (service a)) = Resolved r
        /\ sends a' = sends a ++ [first]
        /\ messages a' = messages a ++ [turn (EveResponse.text r)])
  /\ (forall r,
        fst (send first (service a)) = Resolved r ->
        flag (EveResponse.isError r) = true ->
        isQuotaError r = false ->
        exists a',
          result = Some a'
          /\ sends a' = sends a ++ [first]
          /\ messages a' = messages a ++ [turn (EveResponse.text r)]
          /\ activeKeyId a' = activeKeyId a
          /\ storedActiveKeyId a' = storedActiveKeyId a).
Proof.
  intros keys N first turn result. split; [|split].
  - intros Hq Hn Hd.
    destruct (rotation_exhausts dateNow captured send Hq Hn Hd initialKeyId a)
      as (a' & t & R & Ls & Ms & Ht).
    exists a', t. auto.
  - intros Hq Hn. destruct (Hq first (service a)) as (r & Er & Qr).
    eexists. exists r. split.
    + apply first_send_settles; [exact Er|].
      rewrite Qr. simpl. apply Nat.ltb_ge. exact Hn.
    + unfold settle. rewrite (isQuotaError_isError r Qr).
      split; [exact Er|]. split; reflexivity.
  - intros r Er He Hnq. eexists. split.
    + apply first_send_settles; [exact Er|]. rewrite Hnq. reflexivity.
    + unfold settle. rewrite He. repeat split.
Qed.

Lemma quotaBackend_allQuota (keys : list ApiKeyDef) :
  allQuota (sampleSend quotaBackend keys).
Proof.
  intros k sv. unfold sampleSend, sendOf.
  rewrite (surjective_pairing (sendMessageToEve _ _ _ _ _ _ _ _ _ _ _)).
  eexists. split; [reflexivity|].
  unfold sendMessageToEve. simpl Js.truthyOpt. cbn [andb negb].
  cbn [isImageEvolutionMode sampleCaptured]. cbn [andb].
  destruct (ensureSession_some quotaBackend [sampleUserMessage] k
              (genSettings (sampleCaptured keys)) (language (sampleCaptured keys))
              sv) as (c & Ec).
  rewrite Ec. rewrite Ec. reflexivity.
Qed.

Lemma rotation_attempts_witness :
  allQuota (sampleSend quotaBackend sampleKeys)
  /\ 2 <= List.length sampleKeys
  /\ NoDup (map key_id sampleKeys)
  /\ exists a' t,
      processMessageSending sampleClock (sampleCaptured sampleKeys)
                            (sampleSend quotaBackend sampleKeys) (Some "k2")
                            emptyApp = Some a'
      /\ List.length (sends a') = 0 + 3
      /\ messages a'
         = [] ++ [mkMessage (sampleClock 0) model t None (Some true) None]
      /\ (t = exhaustedShort \/ t = exhaustedLong).
Proof.
  assert (Hd : NoDup (map key_id sampleKeys)).
  { simpl. repeat constructor; simpl; intuition discriminate. }
  split; [apply quotaBackend_allQuota|]. split; [simpl; lia|].
  split; [exact Hd|].
  apply (proj1 (rotation_attempts sampleClock (sampleCaptured sampleKeys)
                  (sampleSend quotaBackend sampleKeys) (Some "k2") emptyApp)).
  - apply quotaBackend_allQuota.
  - simpl; lia.
  - exact Hd.
Defined.

(** C1 as stated fails.  With no key configured one send is made, not none;
    with one key the message appended is that of the refusal, not the message
    of exhaustion.  With three keys the three sends are followed by it. *)
Lemma no_key_still_one_attempt :
  allQuota (sampleSend quotaBackend [])
  /\ List.length (apiKeys (sampleCaptured [])) = 0
  /\ refusedDispatch [] None
     = Some (1, ["I've hit my usage limit for now (Quota Exceeded)."])
  /\ refusedDispatch [mkApiKeyDef "k1" "first" "AAA"] (Some "k1")
     = Some (1, ["I've hit my usage limit for now (Quota Exceeded)."])
  /\ refusedDispatch sampleKeys (Some "k1") = Some (3, [exhaustedShort]).
Proof.
  split; [apply quotaBackend_allQuota|]. repeat split; vm_compute; reflexivity.
Qed.

(* ================================================================== *)
(** * Further properties *)

(* ------------------------------------------------------------------ *)
(** ** What every dispatch does, whatever the sends answer *)

Lemma settle_effects (dateNow : nat -> string) (captured : Captured)
      (r : EveResponse.t) (a : App) :
  let a' := settle dateNow captured r a in
  (exists m, messages a' = messages a ++ [m] /\ role m = model
             /\ text m = EveResponse.text r)
  /\ sends a' = sends a
  /\ activeKeyId a' = activeKeyId a
  /\ storedActiveKeyId a' = storedActiveKeyId a.
Proof.
  unfold settle.
  destruct (flag (EveResponse.isError r)).
  - split; [eexists; repeat split|repeat split].
  - cbn [readClock].
    destruct (EveResponse.enhancedPrompt r) as [p|];
      [destruct (Js.truthy p)|];
      (destruct (EveResponse.visualPrompt r) as [vp|];
       [destruct (Js.truthy vp)|]);
      (split; [eexists; repeat split|repeat split]).
Qed.

Lemma callSend_effects (send : SendFn) (k : option string) (a : App) :
  let a1 := snd (callSend send k a) in
  messages a1 = messages a /\ sends a1 = sends a ++ [k]
  /\ activeKeyId a1 = activeKeyId a
  /\ storedActiveKeyId a1 = storedActiveKeyId a
  /\ clockReads a1 = clockReads a.
Proof.
  unfold callSend. destruct (send k (service a)). repeat split.
Qed.

Lemma rotationLoop_effects (dateNow : nat -> string) (captured : Captured)
      (send : SendFn) (init : option string) (fuel : nat) :
  forall kid t a,
    totalKeys captured - t <= fuel -> t <= totalKeys captured ->
    exists a' m,
      rotationLoop dateNow captured send fuel init kid t a = Some a'
      /\ messages a' = messages a ++ [m] /\ role m = model
      /\ List.length (sends a) + (if t <? totalKeys captured then 1 else 0)
         <= List.length (sends a')
      /\ List.length (sends a') <= List.length (sends a) + (totalKeys captured - t)
      /\ (activeKeyId a = storedActiveKeyId a ->
          activeKeyId a' = storedActiveKeyId a')
      /\ (activeKeyId a' = activeKeyId a
          \/ exists k, In k (apiKeys captured)
                       /\ activeKeyId a' = Some (key_id k)).
Proof.
  induction fuel as [|fuel IH]; intros kid t a Hf Ht.
  - cbn [rotationLoop].
    destruct (Nat.ltb_spec t (totalKeys captured)); [lia|].
    destruct (Nat.leb_spec (totalKeys captured) t); [|lia].
    eexists. eexists. split; [reflexivity|].
    split; [reflexivity|]. split; [reflexivity|].
    simpl. repeat split; auto; lia.
  - cbn [rotationLoop].
    destruct (Nat.ltb_spec t (totalKeys captured)) as [Hlt|Hge].
    2:{ destruct (Nat.leb_spec (totalKeys captured) t); [|lia].
        eexists. eexists. split; [reflexivity|].
        split; [reflexivity|]. split; [reflexivity|].
        simpl. repeat split; auto; lia. }
    pose proof (callSend_effects send
                  (option_map key (findKey kid (apiKeys captured))) a)
      as (Em & Es & Ea & Est & Ec).
    destruct (callSend send _ a) as [[r|] a1]; cbn [snd] in *.
    2:{ eexists. eexists. split; [reflexivity|].
        simpl. rewrite Em, Es, Ea, Est, length_app. simpl.
        repeat split; auto; lia. }
    destruct (isQuotaError r && (1 <? List.length (apiKeys captured))).
    2:{ destruct (settle_effects dateNow captured r a1)
          as ((m & Sm & Sr & _) & Ss & Sa & Sst).
        eexists. exists m. split; [reflexivity|].
        rewrite Sm, Ss, Sa, Sst, Em, Es, Ea, Est, length_app. simpl.
        repeat split; auto; lia. }
    destruct (nth_error (apiKeys captured) _) as [nk|] eqn:Enk.
    2:{ eexists. eexists. split; [reflexivity|].
        simpl. rewrite Em, Es, Ea, Est, length_app. simpl.
        repeat split; auto; lia. }
    destruct (optEqb (Some (key_id nk)) init && (0 <? t)).
    { eexists. eexists. split; [reflexivity|].
      simpl. rewrite Em, Es, Ea, Est, length_app. simpl.
      repeat split; auto; lia. }
    destruct (IH (Some (key_id nk)) (S t)
                 (switchActiveKey (key_id nk)
                    (showToast ("Quota exceeded. Trying key: "
                                ++ key_label nk)%string a1)))
      as (a' & m & R & Rm & Rr & Rlo & Rhi & Rsync & Rkey); [lia | lia |].
    exists a', m. split; [exact R|]. simpl in Rm, Rlo, Rhi, Rsync, Rkey.
    rewrite Rm, Em. split; [reflexivity|]. split; [exact Rr|].
    rewrite Es, length_app in Rlo, Rhi. simpl in Rlo, Rhi.
    split; [lia|]. split; [lia|]. split; [auto|].
    right. destruct Rkey as [E|Hk]; [|exact Hk].
    exists nk. split; [eapply nth_error_In; eauto | exact E].
Qed.

(** X1: whatever the sends answer, a dispatch ends, leaves the messages it
    found as they were, and appends exactly one message, of the assistant. *)
Theorem dispatch_appends_one_turn (dateNow : nat -> string)
        (captured : Captured) (send : SendFn) (initialKeyId : option string)
        (a : App) :
  exists a' m,
    processMessageSending dateNow captured send initialKeyId a = Some a'
    /\ messages a' = messages a ++ [m] /\ role m = model.
Proof.
  destruct (rotationLoop_effects dateNow captured send initialKeyId
              (totalKeys captured) initialKeyId 0 a)
    as (a' & m & R & Rm & Rr & _); [lia | lia |].
  exists a', m. auto.
Qed.

(** X2: whatever the sends answer, a dispatch calls the send at least once
    and at most as many times as there are keys (once when there is none). *)
Theorem dispatch_sends_bounded (dateNow : nat -> string)
        (captured : Captured) (send : SendFn) (initialKeyId : option string)
        (a : App) :
  exists a',
    processMessageSending dateNow captured send initialKeyId a = Some a'
    /\ List.length (sends a) + 1 <= List.length (sends a')
    /\ List.length (sends a')
       <= List.length (sends a) + Nat.max 1 (List.length (apiKeys captured)).
Proof.
  destruct (rotationLoop_effects dateNow captured send initialKeyId
              (totalKeys captured) initialKeyId 0 a)
    as (a' & m & R & _ & _ & Rlo & Rhi & _); [lia | lia |].
  exists a'. split; [exact R|].
  assert (T : totalKeys captured = Nat.max 1 (List.length (apiKeys captured))).
  { unfold totalKeys.
    destruct (Nat.ltb_spec 0 (List.length (apiKeys captured))); lia. }
  rewrite <- T.
  destruct (Nat.ltb_spec 0 (totalKeys captured)); lia.
Qed.

(** X3: a dispatch keeps the active key of the state and the stored one
    equal when they were, and the active key after it is the one before it or
    the identifier of a configured key. *)
Theorem dispatch_keeps_active_key_stored (dateNow : nat -> string)
        (captured : Captured) (send : SendFn) (initialKeyId : option string)
        (a : App) :
  exists a',
    processMessageSending dateNow captured send initialKeyId a = Some a'
    /\ (activeKeyId a = storedActiveKeyId a ->
        activeKeyId a' = storedActiveKeyId a')
    /\ (activeKeyId a' = activeKeyId a
        \/ exists k, In k (apiKeys captured)
                     /\ activeKeyId a' = Some (key_id k)).
Proof.
  destruct (rotationLoop_effects dateNow captured send initialKeyId
              (totalKeys captured) initialKeyId 0 a)
    as (a' & m & R & _ & _ & _ & _ & Rs & Rk); [lia | lia |].
  exists a'. auto.
Qed.

(* ------------------------------------------------------------------ *)
(** ** The order of the rotation *)

Lemma findKey_nth (keys : list ApiKeyDef) :
  forall i k,
    NoDup (map key_id keys) ->
    nth_error keys i = Some k ->
    findKey (Some (key_id k)) keys = Some k.
Proof.
  unfold findKey.
  induction keys as [|a keys IH]; intros [|i] k ND H; cbn [nth_error] in H;
    try discriminate.
  - inversion H; subst. cbn [find optEqb]. rewrite String.eqb_refl. reflexivity.
  - inversion ND as [|? ? Hnot ND']; subst.
    assert (N : key_id a <> key_id k).
    { intros E. apply Hnot. rewrite E. apply in_map.
      eapply nth_error_In; eauto. }
    apply String.eqb_neq in N. cbn [find optEqb]. rewrite N.
    apply (IH i k ND' H).
Qed.

Section RotationOrder.

Variable dateNow : nat -> string.
Variable captured : Captured.
Variable send : SendFn.

Hypothesis Hq : allQuota send.
Hypothesis Hn : 2 <= List.length (apiKeys captured).
Hypothesis Hd : NoDup (map key_id (apiKeys captured)).

Lemma quota_turn (fuel : nat) (init kid : option string) (t : nat) (a : App) :
  t < List.length (apiKeys captured) ->
  rotationLoop dateNow captured send (S fuel) init kid t a
  = let a1 := snd (callSend send
                     (option_map key (findKey kid (apiKeys captured))) a) in
    match nth_error (apiKeys captured)
            ((match findIndex kid (apiKeys captured) with
              | Some i => i + 1
              | None => 0
              end) mod List.length (apiKeys captured)) with
    | Some nextKey =>
        if optEqb (Some (key_id nextKey)) init && (0 <? t)
        then Some (appendError dateNow exhaustedShort a1)
        else rotationLoop dateNow captured send fuel init
               (Some (key_id nextKey)) (S t)
               (switchActiveKey (key_id nextKey)
                  (showToast ("Quota exceeded. Trying key: "
                              ++ key_label nextKey)%string a1))
    | None => Some (appendError dateNow "Signal lost." a1)
    end.
Proof.
  intros Ht. cbn [rotationLoop]. rewrite totalKeys_many by lia.
  destruct (Nat.ltb_spec t (List.length (apiKeys captured))) as [_|]; [|lia].
  rewrite callSend_eq.
  destruct (Hq (option_map key (findKey kid (apiKeys captured))) (service a))
    as (r & Er & Qr).
  rewrite Er, Qr.
  destruct (Nat.ltb_spec 1 (List.length (apiKeys captured))) as [_|]; [|lia].
  reflexivity.
Qed.

Lemma rotation_order_from (i0 : nat) (k0 : ApiKeyDef) :
  nth_error (apiKeys captured) i0 = Some k0 ->
  forall fuel t kt a,
    t < List.length (apiKeys captured) ->
    List.length (apiKeys captured) - t <= fuel ->
    nth_error (apiKeys captured) ((i0 + t) mod List.length (apiKeys captured))
    = Some kt ->
    exists a',
      rotationLoop dateNow captured send fuel (Some (key_id k0))
                   (Some (key_id kt)) t a = Some a'
      /\ sends a'
         = sends a
           ++ map (fun u =>
                     option_map key
                       (nth_error (apiKeys captured)
                          ((i0 + u) mod List.length (apiKeys captured))))
                  (seq t (List.length (apiKeys captured) - t))
      /\ exists kl,
          nth_error (apiKeys captured)
            ((i0 + (List.length (apiKeys captured) - 1))
               mod List.length (apiKeys captured)) = Some kl
          /\ (S t < List.length (apiKeys captured) ->
              activeKeyId a' = Some (key_id kl)
              /\ storedActiveKeyId a' = Some (key_id kl))
          /\ (S t = List.length (apiKeys captured) ->
              activeKeyId a' = activeKeyId a
              /\ storedActiveKeyId a' = storedActiveKeyId a).
Proof.
  intros H0. set (n := List.length (apiKeys captured)) in *.
  assert (Hi0 : i0 < n) by (apply nth_error_Some; congruence).
  induction fuel as [|fuel IH]; intros t kt a Ht Hf Hkt; [lia|].
  rewrite quota_turn by exact Ht. cbv zeta.
  pose proof (callSend_effects send
                (option_map key (findKey (Some (key_id kt)) (apiKeys captured)))
                a) as (Em & Es & Ea & Est & Ec).
  rewrite (findKey_nth _ _ kt Hd Hkt) in *. cbn [option_map] in *.
  set (a1 := snd (callSend send (Some (key kt)) a)) in *.
  rewrite (findIndex_nth _ _ kt Hd Hkt). fold n.
  rewrite Nat.Div0.add_mod_idemp_l.
  replace (i0 + t + 1) with (i0 + S t) by lia.
  destruct (nth_error (apiKeys captured) ((i0 + S t) mod n)) as [nk|] eqn:Enk.
  2:{ apply nth_error_None in Enk. fold n in Enk.
      pose proof (Nat.mod_upper_bound (i0 + S t) n). lia. }
  assert (Eseq : seq t (n - t) = t :: seq (S t) (n - S t)).
  { replace (n - t) with (S (n - S t)) by lia. reflexivity. }
  rewrite Eseq. cbn [map]. rewrite Hkt. cbn [option_map].
  destruct (Nat.eq_dec (S t) n) as [Last|More].
  - assert (Ek : nk = k0).
    { rewrite Last in Enk.
      replace (i0 + n) with (i0 + 1 * n) in Enk by lia.
      rewrite Nat.Div0.mod_add, Nat.mod_small in Enk by lia. congruence. }
    subst nk. cbn [optEqb]. rewrite String.eqb_refl.
    destruct (Nat.ltb_spec 0 t) as [_|]; [|lia]. cbn [andb].
    eexists. split; [reflexivity|].
    destruct (appendError_messages dateNow exhaustedShort a1)
      as (_ & S' & Ak & Ast).
    split.
    + replace (n - S t) with 0 by lia. cbn [seq map].
      rewrite S', Es. reflexivity.
    + exists kt. split; [|split].
      * replace (n - 1) with t by lia. exact Hkt.
      * intros; lia.
      * intros _. rewrite Ak, Ast, Ea, Est. split; reflexivity.
  - assert (Nk : String.eqb (key_id nk) (key_id k0) = false).
    { apply String.eqb_neq. intros Eid.
      pose proof (nth_ids_distinct _ _ _ _ _ Hd Enk H0 Eid) as X.
      apply (mod_wraps i0 t n); [exact Hi0 | lia | exact X]. }
    cbn [optEqb]. rewrite Nk. cbn [andb].
    destruct (IH (S t) nk
                 (switchActiveKey (key_id nk)
                    (showToast ("Quota exceeded. Trying key: "
                                ++ key_label nk)%string a1)))
      as (a' & R & Rs & kl & Hkl & Rmore & Rlast); [lia | lia | exact Enk |].
    exists a'. split; [exact R|]. split.
    + rewrite Rs. cbn [sends switchActiveKey showToast]. rewrite Es.
      rewrite <- app_assoc. reflexivity.
    + exists kl. split; [exact Hkl|]. split; [|intros; lia].
      intros _. destruct (Nat.eq_dec (S (S t)) n) as [E1|N1].
      * assert (nk = kl).
        { replace (n - 1) with (S t) in Hkl by lia. congruence. }
        subst kl. apply Rlast in E1. exact E1.
      * apply Rmore. lia.
Qed.

End RotationOrder.

(** X4: with every send refused for quota, two keys or more, no identifier
    twice, and a dispatch started from the key at place [i0], the sends use
    the keys in their order from that place on, wrapping round, each once;
    the key left active, in the state and in the store, is the last one
    tried. *)
Theorem rotation_is_cyclic (dateNow : nat -> string) (captured : Captured)
        (send : SendFn) (i0 : nat) (k0 : ApiKeyDef) (a : App) :
  allQuota send ->
  2 <= List.length (apiKeys captured) ->
  NoDup (map key_id (apiKeys captured)) ->
  nth_error (apiKeys captured) i0 = Some k0 ->
  exists a' kl,
    processMessageSending dateNow captured send (Some (key_id k0)) a = Some a'
    /\ sends a' = sends a ++ cyclicKeys (apiKeys captured) i0
    /\ nth_error (apiKeys captured)
         ((i0 + (List.length (apiKeys captured) - 1))
            mod List.length (apiKeys captured)) = Some kl
    /\ activeKeyId a' = Some (key_id kl)
    /\ storedActiveKeyId a' = Some (key_id kl).
Proof.
  intros Hq Hn Hd H0.
  assert (Hi0 : i0 < List.length (apiKeys captured))
    by (apply nth_error_Some; congruence).
  unfold processMessageSending. rewrite totalKeys_many by lia.
  destruct (rotation_order_from dateNow captured send Hq Hn Hd i0 k0 H0
              (List.length (apiKeys captured)) 0 k0 a)
    as (a' & R & Rs & kl & Hkl & Rmore & _).
  - lia.
  - lia.
  - rewrite Nat.add_0_r, Nat.mod_small by exact Hi0. exact H0.
  - exists a', kl. split; [exact R|]. rewrite Nat.sub_0_r in Rs.
    split; [exact Rs|]. split; [exact Hkl|]. apply Rmore. lia.
Qed.

Lemma rotation_is_cyclic_witness :
  allQuota (sampleSend quotaBackend sampleKeys)
  /\ exists a' kl,
      processMessageSending sampleClock (sampleCaptured sampleKeys)
                            (sampleSend quotaBackend sampleKeys) (Some "k2")
                            emptyApp = Some a'
      /\ sends a' = [] ++ cyclicKeys sampleKeys 1
      /\ nth_error sampleKeys ((1 + (3 - 1)) mod 3) = Some kl
      /\ activeKeyId a' = Some (key_id kl)
      /\ storedActiveKeyId a' = Some (key_id kl).
Proof.
  split; [apply quotaBackend_allQuota|].
  apply (rotation_is_cyclic sampleClock (sampleCaptured sampleKeys)
           (sampleSend quotaBackend sampleKeys) 1
           (mkApiKeyDef "k2" "second" "BBB") emptyApp).
  - apply quotaBackend_allQuota.
  - simpl; lia.
  - simpl. repeat constructor; simpl; intuition discriminate.
  - reflexivity.
Defined.

(* ------------------------------------------------------------------ *)
(** ** Turns of the loop, one by one *)

Lemma loop_turn_rotates (dateNow : nat -> string) (captured : Captured)
      (send : SendFn) (fuel : nat) (init kid : option string) (t : nat)
      (a : App) (r : EveResponse.t) :
  t < totalKeys captured ->
  fst (send (option_map key (findKey kid (apiKeys captured))) (service a))
  = Resolved r ->
  isQuotaError r = true ->
  1 < List.length (apiKeys captured) ->
  rotationLoop dateNow captured send (S fuel) init kid t a
  = let a1 := snd (callSend send
                     (option_map key (findKey kid (apiKeys captured))) a) in
    match nth_error (apiKeys captured)
            ((match findIndex kid (apiKeys captured) with
              | Some i => i + 1
              | None => 0
              end) mod List.length (apiKeys captured)) with
    | Some nextKey =>
        if optEqb (Some (key_id nextKey)) init && (0 <? t)
        then Some (appendError dateNow exhaustedShort a1)
        else rotationLoop dateNow captured send fuel init
               (Some (key_id nextKey)) (S t)
               (switchActiveKey (key_id nextKey)
                  (showToast ("Quota exceeded. Trying key: "
                              ++ key_label nextKey)%string a1))
    | None => Some (appendError dateNow "Signal lost." a1)
    end.
Proof.
  intros Ht Er Qr Hn. cbn [rotationLoop].
  destruct (Nat.ltb_spec t (totalKeys captured)) as [_|]; [|lia].
  rewrite callSend_eq, Er, Qr.
  destruct (Nat.ltb_spec 1 (List.length (apiKeys captured))) as [_|]; [|lia].
  reflexivity.
Qed.

Lemma loop_turn_settles (dateNow : nat -> string) (captured : Captured)
      (send : SendFn) (fuel : nat) (init kid : option string) (t : nat)
      (a : App) (r : EveResponse.t) :
  t < totalKeys captured ->
  fst (send (option_map key (findKey kid (apiKeys captured))) (service a))
  = Resolved r ->
  isQuotaError r && (1 <? List.length (apiKeys captured)) = false ->
  rotationLoop dateNow captured send (S fuel) init kid t a
  = Some (settle dateNow captured r
            (snd (callSend send
                    (option_map key (findKey kid (apiKeys captured))) a))).
Proof.
  intros Ht Er Hnot. cbn [rotationLoop].
  destruct (Nat.ltb_spec t (totalKeys captured)) as [_|]; [|lia].
  rewrite callSend_eq, Er, Hnot. reflexivity.
Qed.

Lemma isQuotaError_ok (r : EveResponse.t) :
  flag (EveResponse.isError r) = false -> isQuotaError r = false.
Proof. unfold isQuotaError. intros ->. reflexivity. Qed.

(** X5: when the key the dispatch starts from is refused for quota and the
    key after it answers, the dispatch makes these two sends, appends the
    answer, not flagged as an error, and leaves the second key active. *)
Theorem rotation_recovers_on_next_key (dateNow : nat -> string)
        (captured : Captured) (send : SendFn) (i0 : nat) (k0 k1 : ApiKeyDef)
        (a : App) (r1 r2 : EveResponse.t) :
  NoDup (map key_id (apiKeys captured)) ->
  nth_error (apiKeys captured) i0 = Some k0 ->
  nth_error (apiKeys captured) ((i0 + 1) mod List.length (apiKeys captured))
  = Some k1 ->
  2 <= List.length (apiKeys captured) ->
  fst (send (Some (key k0)) (service a)) = Resolved r1 ->
  isQuotaError r1 = true ->
  fst (send (Some (key k1)) (snd (send (Some (key k0)) (service a))))
  = Resolved r2 ->
  flag (EveResponse.isError r2) = false ->
  exists a' m,
    processMessageSending dateNow captured send (Some (key_id k0)) a = Some a'
    /\ sends a' = sends a ++ [Some (key k0); Some (key k1)]
    /\ messages a' = messages a ++ [m]
    /\ text m = EveResponse.text r2 /\ isError m = None
    /\ activeKeyId a' = Some (key_id k1)
    /\ storedActiveKeyId a' = Some (key_id k1).
Proof.
  intros Hd H0 H1 Hn E1 Q1 E2 Ok2.
  unfold processMessageSending. rewrite totalKeys_many by lia.
  destruct (List.length (apiKeys captured)) as [|[|fuel]] eqn:En; try lia.
  assert (F0 : findKey (Some (key_id k0)) (apiKeys captured) = Some k0)
    by (eapply findKey_nth; eauto).
  assert (F1 : findKey (Some (key_id k1)) (apiKeys captured) = Some k1)
    by (eapply findKey_nth; eauto).
  rewrite (loop_turn_rotates dateNow captured send (S fuel) _ _ 0 a r1).
  2:{ rewrite totalKeys_many by lia. lia. }
  2:{ rewrite F0. exact E1. }
  2:{ exact Q1. }
  2:{ lia. }
  cbv zeta. rewrite (findIndex_nth _ _ k0 Hd H0), En, H1, F0.
  cbn [option_map]. rewrite andb_false_r.
  rewrite callSend_eq. cbn [snd fst].
  match goal with
  | |- context [rotationLoop _ _ _ _ _ _ _ ?x] => set (a3 := x)
  end.
  assert (Sv : service a3 = snd (send (Some (key k0)) (service a)))
    by reflexivity.
  rewrite (loop_turn_settles dateNow captured send fuel _ _ 1 a3 r2).
  2:{ rewrite totalKeys_many by lia. lia. }
  2:{ rewrite F1. cbn [option_map]. rewrite Sv. exact E2. }
  2:{ rewrite (isQuotaError_ok r2 Ok2). reflexivity. }
  rewrite F1. cbn [option_map].
  destruct (settle_effects dateNow captured r2
              (snd (callSend send (Some (key k1)) a3)))
    as ((m & Sm & Sr & St) & Ss & Sa & Sst).
  destruct (callSend_effects send (Some (key k1)) a3)
    as (Cm & Cs & Ca & Cst & _).
  eexists. exists m. split; [reflexivity|].
  rewrite Ss, Sm, Sa, Sst, Cm, Cs, Ca, Cst. subst a3. simpl.
  rewrite <- app_assoc. simpl.
  repeat split; auto.
  clear - Sm Ok2. unfold settle in Sm. rewrite Ok2 in Sm.
  cbn [readClock] in Sm.
  destruct (EveResponse.enhancedPrompt r2) as [p|];
    [destruct (Js.truthy p)|];
    (destruct (EveResponse.visualPrompt r2) as [vp|];
     [destruct (Js.truthy vp)|]);
    simpl in Sm; apply app_inv_head in Sm; inversion Sm; reflexivity.
Qed.

Lemma rotation_recovers_on_next_key_witness :
  exists a' m,
    processMessageSending sampleClock (sampleCaptured sampleKeys)
                          (sampleSend firstKeyExhausted sampleKeys)
                          (Some "k1") emptyApp = Some a'
    /\ sends a' = [] ++ [Some "AAA"; Some "BBB"]
    /\ messages a' = [] ++ [m]
    /\ text m = "Hi there" /\ isError m = None
    /\ activeKeyId a' = Some "k2"
    /\ storedActiveKeyId a' = Some "k2".
Proof.
  eapply (rotation_recovers_on_next_key sampleClock (sampleCaptured sampleKeys)
            (sampleSend firstKeyExhausted sampleKeys) 0
            (mkApiKeyDef "k1" "first" "AAA") (mkApiKeyDef "k2" "second" "BBB")
            emptyApp
            (EveResponse.mk "I've hit my usage limit for now (Quota Exceeded)."
                            None None None (Some true)
                            (Some "429 RESOURCE_EXHAUSTED: quota exceeded")
                            (Some QUOTA_EXCEEDED) None)
            (EveResponse.mk "Hi there" None None (Some scene) None None None
                            None)).
  - simpl. repeat constructor; simpl; intuition discriminate.
  - reflexivity.
  - reflexivity.
  - simpl; lia.
  - vm_compute; reflexivity.
  - reflexivity.
  - vm_compute; reflexivity.
  - reflexivity.
Defined.

(* ------------------------------------------------------------------ *)
(** ** A reply with a visual prompt, and the render that follows *)

Lemma patchMessage_last messageId f (prev : list Message) (m : Message) :
  (forall x, In x prev -> id x <> messageId) ->
  id m = messageId ->
  patchMessage messageId f (prev ++ [m]) = prev ++ [f m].
Proof.
  intros Hprev Hm. unfold patchMessage. rewrite map_app.
  fold (patchMessage messageId f prev).
  rewrite (patchMessage_absent _ _ _ Hprev). simpl.
  apply String.eqb_eq in Hm. rewrite Hm. reflexivity.
Qed.

(** X6: when the first send answers with a visual prompt, the dispatch
    appends the reply marked as loading and starts one render for the
    identifier of that message; if no earlier message has this identifier,
    the render, when it succeeds, gives that message its image and ends the
    loading, and when it fails only ends the loading; the other messages
    are as before in both cases. *)
Theorem reply_then_render (dateNow : nat -> string) (captured : Captured)
        (send : SendFn) (initialKeyId : option string) (a : App)
        (r : EveResponse.t) (vp : string) :
  let first := option_map key (findKey initialKeyId (apiKeys captured)) in
  let mid := dateNow (clockReads a) in
  let reply := fun img loading =>
    mkMessage mid model (EveResponse.text r) img None (Some loading) in
  fst (send first (service a)) = Resolved r ->
  flag (EveResponse.isError r) = false ->
  EveResponse.visualPrompt r = Some vp ->
  Js.truthy vp = true ->
  (forall x, In x (messages a) -> id x <> mid) ->
  exists a' task,
    processMessageSending dateNow captured send initialKeyId a = Some a'
    /\ messages a' = messages a ++ [reply (EveResponse.image r) true]
    /\ pendingRenders a' = pendingRenders a ++ [task]
    /\ task_messageId task = mid /\ task_prompt task = vp
    /\ (forall url enh,
          Js.truthy url = true ->
          messages (onRenderSettled mid (inr (mkRender url enh)) a')
          = messages a ++ [reply (Some url) false])
    /\ (forall e,
          messages (onRenderSettled mid (inl e) a')
          = messages a ++ [reply (EveResponse.image r) false]).
Proof.
  intros first mid reply Er Ok Evp Tvp Hfresh.
  rewrite (first_send_settles dateNow captured send initialKeyId a r Er)
    by (rewrite (isQuotaError_ok r Ok); reflexivity).
  fold first.
  set (a1 := mkApp (messages a) (activeKeyId a) (storedActiveKeyId a)
                   (visualMemory a) (pendingRenders a)
                   (snd (send first (service a))) (sends a ++ [first])
                   (toasts a) (clockReads a)).
  unfold settle. rewrite Ok, Evp. cbn [Js.truthyOpt readClock]. rewrite !Tvp.
  assert (Em : forall a2,
             messages a2 = messages a ++ [reply (EveResponse.image r) true] ->
             (forall url enh,
                 Js.truthy url = true ->
                 messages (onRenderSettled mid (inr (mkRender url enh)) a2)
                 = messages a ++ [reply (Some url) false])
             /\ (forall e,
                    messages (onRenderSettled mid (inl e) a2)
                    = messages a ++ [reply (EveResponse.image r) false])).
  { intros a2 E2. split.
    - intros url enh Tu. unfold onRenderSettled. cbn [imageUrl enhancedPrompt].
      rewrite Tu.
      destruct (Js.truthy enh); cbn [messages setVisualMemory setMessages];
        rewrite E2; apply patchMessage_last; auto.
    - intros e. unfold onRenderSettled. cbn [messages setMessages].
      rewrite E2. apply patchMessage_last; auto. }
  destruct (EveResponse.enhancedPrompt r) as [p|]; [destruct (Js.truthy p)|];
    (eexists; eexists; split; [reflexivity|];
     split; [reflexivity|]; split; [reflexivity|];
     split; [reflexivity|]; split; [reflexivity|];
     apply Em; reflexivity).
Qed.

Lemma reply_then_render_witness :
  exists a' task,
    processMessageSending sampleClock (sampleCaptured sampleKeys)
      (sampleSend (replyingBackend "Look! [SCENE: a beach]") sampleKeys)
      (Some "k1") emptyApp = Some a'
    /\ messages a'
       = [] ++ [mkMessage (sampleClock 0) model "Look!" None None (Some true)]
    /\ pendingRenders a' = [] ++ [task]
    /\ task_messageId task = sampleClock 0 /\ task_prompt task = "a beach"
    /\ (forall url enh,
          Js.truthy url = true ->
          messages (onRenderSettled (sampleClock 0) (inr (mkRender url enh)) a')
          = [] ++ [mkMessage (sampleClock 0) model "Look!" (Some url) None
                             (Some false)])
    /\ (forall e,
          messages (onRenderSettled (sampleClock 0) (inl e) a')
          = [] ++ [mkMessage (sampleClock 0) model "Look!" None None
                             (Some false)]).
Proof.
  apply (reply_then_render sampleClock (sampleCaptured sampleKeys)
           (sampleSend (replyingBackend "Look! [SCENE: a beach]") sampleKeys)
           (Some "k1") emptyApp
           (EveResponse.mk "Look!" None (Some "a beach") (Some scene) None None
                           None None) "a beach").
  - vm_compute; reflexivity.
  - reflexivity.
  - reflexivity.
  - reflexivity.
  - intros x [].
Defined.

(* ------------------------------------------------------------------ *)
(** ** More on the normalised history *)

Lemma lastRole_app (l : list Content.t) (c : Content.t) :
  lastRole (l ++ [c]) = Some (Content.role c).
Proof. unfold lastRole. rewrite rev_app_distr. reflexivity. Qed.

Lemma lastRole_cons (c d : Content.t) (l : list Content.t) :
  lastRole (c :: d :: l) = lastRole (d :: l).
Proof.
  destruct (exists_last (l := d :: l)) as (l' & x & E); [discriminate|].
  rewrite E. change (c :: l' ++ [x]) with ((c :: l') ++ [x]).
  rewrite !lastRole_app. reflexivity.
Qed.

(** In a list of alternating roles the last role is fixed by the first one
    and the parity of the length. *)
Lemma alternating_last (l : list Content.t) :
  forall c,
    alternates (map Content.role (c :: l)) = true ->
    lastRole (c :: l)
    = Some (if Nat.even (List.length l) then Content.role c
            else match Content.role c with user => model | model => user end).
Proof.
  induction l as [|d l IH]; intros c H.
  - reflexivity.
  - rewrite lastRole_cons.
    cbn [map alternates] in H. apply andb_true_iff in H as [Hcd H].
    rewrite (IH d H). cbn [List.length].
    rewrite Nat.even_succ, <- Nat.negb_even.
    apply negb_true_iff in Hcd.
    destruct (Nat.even (List.length l)), (Content.role c), (Content.role d);
      simpl in *; congruence.
Qed.

(** X7: the normalised history is empty, or one turn of the user, or an even
    number of turns that ends with a turn of the assistant. *)
Theorem normalize_shape (history : list Message) :
  let out := formatHistoryForGemini history in
  out = []
  \/ (exists c, out = [c] /\ Content.role c = user)
  \/ (Nat.even (List.length out) = true /\ lastRole out = Some model).
Proof.
  cbv zeta. unfold formatHistoryForGemini.
  set (m := dropLeadingModel (mergeTurns (validHistory history))).
  assert (A : alternates (map Content.role m) = true)
    by apply dropLeadingModel_alternates, mergeTurns_alternates.
  assert (Hd : forall c rest, m = c :: rest -> Content.role c = user)
    by (intros c rest E; eapply dropLeadingModel_head; exact E).
  destruct m as [|c [|d l]].
  - left. reflexivity.
  - right; left. exists c. split; [reflexivity|]. eapply Hd; reflexivity.
  - right; right.
    pose proof (alternating_last (d :: l) c A) as L.
    rewrite (Hd c (d :: l) eq_refl) in L.
    unfold closeWithPlaceholder. cbn [List.length Nat.ltb Nat.leb].
    rewrite L.
    destruct (Nat.even (List.length (d :: l))) eqn:Ev.
    + (* ends with the user: the placeholder follows *)
      change (c :: d :: l) with ([c] ++ d :: l). rewrite <- app_assoc.
      rewrite length_app, length_app. cbn [List.length app].
      split.
      * cbn [List.length] in Ev. rewrite Nat.add_1_r.
        rewrite Nat.even_succ, <- Nat.negb_even.
        cbn [Nat.add]. rewrite Nat.even_succ, <- Nat.negb_even, Ev.
        reflexivity.
      * change (c :: d :: l ++ [placeholderTurn])
          with ((c :: d :: l) ++ [placeholderTurn]).
        apply lastRole_app.
    + split; [|exact L].
      cbn [List.length] in *. rewrite Nat.even_succ, <- Nat.negb_even, Ev.
      reflexivity.
Qed.

Lemma validEntry_parts (h : Message) :
  Forall (fun c => Content.parts c <> []) (validEntry h).
Proof.
  unfold validEntry. destruct (flag (isError h)); [constructor|].
  destruct (role h).
  - destruct (imageParts (image h) ++ textParts (text h)) eqn:E;
      constructor; [discriminate | constructor].
  - constructor; [discriminate | constructor].
Qed.

Lemma mergeLoop_parts (rest : list Content.t) :
  forall merged cur,
    Forall (fun c => Content.parts c <> []) merged ->
    Content.parts cur <> [] ->
    Forall (fun c => Content.parts c <> []) rest ->
    Forall (fun c => Content.parts c <> []) (mergeLoop merged cur rest).
Proof.
  induction rest as [|v rest IH]; intros merged cur Hm Hc Hr; simpl.
  - apply Forall_app. split; [exact Hm | constructor; [exact Hc|constructor]].
  - inversion Hr as [|? ? Hv Hr']; subst.
    destruct (Role_eqb (Content.role v) (Content.role cur)).
    + apply IH; auto. simpl. destruct (Content.parts cur); [contradiction|].
      discriminate.
    + apply IH; auto. apply Forall_app. split; [exact Hm|].
      constructor; [exact Hc|constructor].
Qed.

(** X8: every turn of the normalised history carries at least one part. *)
Theorem normalize_no_empty_turn (history : list Message) :
  Forall (fun c => Content.parts c <> []) (formatHistoryForGemini history).
Proof.
  unfold formatHistoryForGemini.
  assert (V : Forall (fun c => Content.parts c <> []) (validHistory history)).
  { induction history as [|h history IH]; [constructor|].
    simpl. apply Forall_app. split; [apply validEntry_parts | exact IH]. }
  assert (M : Forall (fun c => Content.parts c <> [])
                     (mergeTurns (validHistory history))).
  { unfold mergeTurns. destruct (validHistory history) as [|v0 rest];
      [constructor|].
    inversion V; subst. apply mergeLoop_parts; auto. }
  assert (D : Forall (fun c => Content.parts c <> [])
                     (dropLeadingModel (mergeTurns (validHistory history)))).
  { destruct (dropLeadingModel_split (mergeTurns (validHistory history)))
      as (lead & E & _).
    rewrite E in M. apply Forall_app in M. apply M. }
  destruct (closeWithPlaceholder_cases
              (dropLeadingModel (mergeTurns (validHistory history))))
    as [E | (E & _)]; rewrite E.
  - exact D.
  - apply Forall_app. split; [exact D|].
    constructor; [discriminate | constructor].
Qed.

Lemma contributesNothing_entry (h : Message) :
  contributesNothing h = true -> validEntry h = [].
Proof.
  unfold contributesNothing, validEntry.
  destruct (flag (isError h)); [reflexivity|]. simpl.
  destruct (role h); [|discriminate].
  intros H. apply andb_true_iff in H as [Ht Hi].
  apply negb_true_iff in Ht, Hi.
  unfold textParts. rewrite Ht.
  unfold imageParts. destruct (image h) as [i|]; [|reflexivity].
  simpl in Hi. rewrite Hi. reflexivity.
Qed.

(** X9: messages flagged as errors, and messages of the user with neither
    text nor image, count for nothing: the normalised history is the same
    without them. *)
Theorem normalize_ignores_empty_and_errors (history : list Message) :
  formatHistoryForGemini
    (filter (fun h => negb (contributesNothing h)) history)
  = formatHistoryForGemini history.
Proof.
  unfold formatHistoryForGemini. f_equal. f_equal. f_equal.
  induction history as [|h history IH]; [reflexivity|].
  simpl. destruct (contributesNothing h) eqn:E; simpl.
  - rewrite (contributesNothing_entry h E). exact IH.
  - rewrite IH. reflexivity.
Qed.

(* ------------------------------------------------------------------ *)
(** ** Replies made of text and well-formed tags *)

Lemma allChars_app (f : ascii -> bool) (a b : string) :
  allChars f (a ++ b) = allChars f a && allChars f b.
Proof.
  induction a as [|c a IH]; simpl; [reflexivity|].
  rewrite IH, andb_assoc. reflexivity.
Qed.

Lemma allChars_trimStart (f : ascii -> bool) (s : string) :
  allChars f s = true -> allChars f (Js.trimStart s) = true.
Proof.
  induction s as [|c s IH]; simpl; [reflexivity|].
  intros H. destruct (Js.isWhiteSpace c); [|exact H].
  apply andb_true_iff in H as [_ H]. exact (IH H).
Qed.

Lemma allChars_trimEnd (f : ascii -> bool) (s : string) :
  allChars f s = true -> allChars f (Js.trimEnd s) = true.
Proof.
  induction s as [|c s IH]; simpl; [reflexivity|].
  intros H. apply andb_true_iff in H as [Hc H]. specialize (IH H).
  destruct (Js.trimEnd s).
  - destruct (Js.isWhiteSpace c); [reflexivity|]. simpl. rewrite Hc. reflexivity.
  - simpl in *. rewrite Hc. exact IH.
Qed.

Lemma allChars_trim (f : ascii -> bool) (s : string) :
  allChars f s = true -> allChars f (Js.trim s) = true.
Proof. intros H. apply allChars_trimEnd, allChars_trimStart, H. Qed.

Lemma string_length_app (a b : string) :
  String.length (a ++ b) = String.length a + String.length b.
Proof. induction a as [|c a IH]; simpl; congruence. Qed.

Lemma matchTagAt_other_char (kw : string) (c : ascii) (s : string) :
  Ascii.eqb c "[" = false -> matchTagAt kw (String c s) = None.
Proof.
  intros H. unfold matchTagAt. cbn [Js.stripPrefix].
  rewrite Ascii.eqb_sym, H. reflexivity.
Qed.

Lemma removeTags_plain (kw : string) (s rest : string) :
  noBracket s = true ->
  removeTagsFrom kw 0 (s ++ rest) = (s ++ removeTagsFrom kw 0 rest)%string.
Proof.
  unfold noBracket. induction s as [|c s IH]; intros H; [reflexivity|].
  simpl in H. apply andb_true_iff in H as [Hc H]. apply negb_true_iff in Hc.
  change (String c s ++ rest)%string with (String c (s ++ rest)).
  cbn [removeTagsFrom]. rewrite (matchTagAt_other_char kw c _ Hc), (IH H).
  reflexivity.
Qed.

Lemma removeTags_skip (kw : string) (t rest : string) :
  removeTagsFrom kw (String.length t) (t ++ rest) = removeTagsFrom kw 0 rest.
Proof.
  induction t as [|c t IH]; [destruct rest; reflexivity|].
  simpl. exact IH.
Qed.

Lemma trimStart_before_bracket (d rest : string) :
  Js.trimStart (d ++ String "]" rest)
  = (Js.trimStart d ++ String "]" rest)%string.
Proof.
  induction d as [|c d IH]; [reflexivity|].
  simpl. destruct (Js.isWhiteSpace c); [exact IH | reflexivity].
Qed.

Lemma lazyUpTo_exact (x rest : string) :
  allChars (fun c => negb (Ascii.eqb c "]")) x = true ->
  allChars (fun c => negb (Js.isLineTerminator c)) x = true ->
  Js.lazyUpTo "]" (x ++ String "]" rest) = Some (x, rest).
Proof.
  induction x as [|c x IH]; intros Hb Hl; [reflexivity|].
  simpl in Hb, Hl.
  apply andb_true_iff in Hb as [Hc Hb]. apply andb_true_iff in Hl as [Hlc Hl].
  apply negb_true_iff in Hc, Hlc.
  change (String c x ++ String "]" rest)%string
    with (String c (x ++ String "]" rest)).
  cbn [Js.lazyUpTo Js.stripPrefix]. rewrite Ascii.eqb_sym, Hc, Hlc, (IH Hb Hl).
  reflexivity.
Qed.

(** The pattern of a kind matches a well-formed tag of that kind, whole. *)
Lemma matchTagAt_tag (k : VisualType) (d : option string) (rest : string) :
  wellFormedPiece (Tag k d) = true ->
  exists cap,
    matchTagAt (keyword k) (renderPiece (Tag k d) ++ rest) = Some (cap, rest).
Proof.
  intros W. unfold matchTagAt.
  destruct d as [d|].
  - assert (P : Js.stripPrefix (String "[" (keyword k))
                  (renderPiece (Tag k (Some d)) ++ rest)
                = Some (String ":" (d ++ String "]" rest))).
    { apply stripPrefix_spec. simpl. f_equal.
      rewrite append_assoc. simpl. rewrite append_assoc. reflexivity. }
    rewrite P. cbn [Js.stripPrefix]. rewrite Ascii.eqb_refl.
    rewrite trimStart_before_bracket.
    simpl in W. unfold plainDescription in W.
    apply andb_true_iff in W as [W Wl]. apply andb_true_iff in W as [_ Wb].
    rewrite lazyUpTo_exact; [eauto | | exact Wl].
    apply allChars_trimStart. exact Wb.
  - assert (P : Js.stripPrefix (String "[" (keyword k))
                  (renderPiece (Tag k None) ++ rest)
                = Some (String "]" rest)).
    { apply stripPrefix_spec. simpl. f_equal.
      rewrite append_assoc. reflexivity. }
    rewrite P. eexists. reflexivity.
Qed.

Lemma removeTags_same_kind (k : VisualType) (d : option string) (rest : string) :
  wellFormedPiece (Tag k d) = true ->
  removeTagsFrom (keyword k) 0 (renderPiece (Tag k d) ++ rest)
  = removeTagsFrom (keyword k) 0 rest.
Proof.
  intros W. destruct (matchTagAt_tag k d rest W) as (cap & M).
  assert (exists t, renderPiece (Tag k d) = String "[" t) as (t & Et)
    by (destruct d; eexists; reflexivity).
  rewrite Et in *.
  change (String "[" t ++ rest)%string with (String "[" (t ++ rest)) in *.
  cbn [removeTagsFrom]. rewrite M.
  replace (String.length (t ++ rest) - String.length rest)
    with (String.length t) by (rewrite string_length_app; lia).
  apply removeTags_skip.
Qed.

Lemma tag_body_noBracket (k : VisualType) (d : option string) :
  wellFormedPiece (Tag k d) = true ->
  exists t, renderPiece (Tag k d) = String "[" t /\ noBracket t = true.
Proof.
  intros W. destruct d as [d|].
  - exists (keyword k ++ String ":" (d ++ "]"))%string.
    split; [reflexivity|]. unfold noBracket.
    rewrite allChars_app. simpl. rewrite allChars_app. simpl.
    simpl in W. unfold plainDescription, noBracket in W.
    apply andb_true_iff in W as [W _]. apply andb_true_iff in W as [W _].
    rewrite W. destruct k; reflexivity.
  - exists (keyword k ++ "]")%string.
    split; [reflexivity|]. destruct k; reflexivity.
Qed.

Lemma removeTags_other_kind (k k' : VisualType) (d : option string)
      (rest : string) :
  k <> k' ->
  wellFormedPiece (Tag k' d) = true ->
  removeTagsFrom (keyword k) 0 (renderPiece (Tag k' d) ++ rest)
  = (renderPiece (Tag k' d) ++ removeTagsFrom (keyword k) 0 rest)%string.
Proof.
  intros N W. destruct (tag_body_noBracket k' d W) as (t & Et & Ht).
  assert (M : matchTagAt (keyword k) (renderPiece (Tag k' d) ++ rest) = None).
  { destruct k, k'; try congruence; destruct d; reflexivity. }
  rewrite Et in *.
  change (String "[" t ++ rest)%string with (String "[" (t ++ rest)) in *.
  cbn [removeTagsFrom]. rewrite M. rewrite (removeTags_plain _ t rest Ht).
  reflexivity.
Qed.

(** One pass removes the tags of its kind and nothing else. *)
Lemma removeTags_pass (k : VisualType) (l : list ReplyPiece) :
  forallb wellFormedPiece l = true ->
  removeTags (keyword k) (renderReply l)
  = renderReply
      (filter (fun p => match p with
                        | Plain _ => true
                        | Tag k' _ => match k, k' with
                                      | selfie, selfie | scene, scene => false
                                      | _, _ => true
                                      end
                        end) l).
Proof.
  unfold removeTags.
  induction l as [|p l IH]; intros W; [reflexivity|].
  simpl in W. apply andb_true_iff in W as [Wp W]. specialize (IH W).
  destruct p as [s|k' d].
  - cbn [renderReply renderPiece filter]. rewrite removeTags_plain by exact Wp.
    rewrite IH. reflexivity.
  - cbn [renderReply].
    assert (D : k = k' \/ k <> k')
      by (destruct k, k'; auto; right; discriminate).
    destruct D as [<-|N].
    + rewrite removeTags_same_kind by exact Wp.
      rewrite IH. destruct k; reflexivity.
    + rewrite removeTags_other_kind by assumption.
      rewrite IH. destruct k, k'; try congruence; reflexivity.
Qed.

Lemma plainText_noBracket (l : list ReplyPiece) :
  forallb wellFormedPiece l = true -> noBracket (plainText l) = true.
Proof.
  induction l as [|[s|k d] l IH]; intros W; [reflexivity| |].
  - simpl in W. apply andb_true_iff in W as [Ws W].
    simpl. unfold noBracket in *. rewrite allChars_app, Ws, (IH W). reflexivity.
  - simpl in W. apply andb_true_iff in W as [_ W]. exact (IH W).
Qed.

(** X10: for a reply made of text without opening bracket and of well-formed
    SELFIE and SCENE tags, the text returned for display is the text of the
    reply without its tags, trimmed, and it holds no opening bracket. *)
Theorem well_formed_tags_are_stripped (l : list ReplyPiece) :
  forallb wellFormedPiece l = true ->
  stripDirectives (renderReply l) = Js.trim (plainText l)
  /\ noBracket (stripDirectives (renderReply l)) = true.
Proof.
  intros W.
  assert (E : stripDirectives (renderReply l) = Js.trim (plainText l)).
  { unfold stripDirectives.
    change "SELFIE" with (keyword selfie). change "SCENE" with (keyword scene).
    rewrite (removeTags_pass selfie l W).
    rewrite removeTags_pass.
    2:{ apply forallb_forall. intros p Hp. apply filter_In in Hp as [Hp _].
        eapply forallb_forall in W; eauto. }
    f_equal. clear W.
    induction l as [|[s|[|] d] l IH]; simpl; congruence. }
  split; [exact E|]. rewrite E.
  apply allChars_trim. apply plainText_noBracket. exact W.
Qed.

Lemma well_formed_tags_are_stripped_witness :
  forallb wellFormedPiece
          [Plain "I feel shy "; Tag selfie (Some " blushing"); Plain " and ";
           Tag scene None] = true
  /\ stripDirectives "I feel shy [SELFIE: blushing] and [SCENE]"
     = Js.trim "I feel shy  and "
  /\ noBracket (stripDirectives "I feel shy [SELFIE: blushing] and [SCENE]")
     = true.
Proof.
  split; [reflexivity|].
  apply (well_formed_tags_are_stripped
           [Plain "I feel shy "; Tag selfie (Some " blushing"); Plain " and ";
            Tag scene None]).
  reflexivity.
Defined.

(* ------------------------------------------------------------------ *)
(** ** The branches of a reply, through the send *)

Lemma send_reply_parts (B : Backend) message history att apiKey ep settings ctx
      lang st reply :
  (forall n c m, chat_sendMessage B n c m = inr reply) ->
  let r := sendMessageToEve B message history att false apiKey ep settings ctx
                            lang st in
  let d := directiveBranch (aiImageGeneration settings) message
                           (Js.orElse reply "") (textOnlyMessageCount st) in
  textOnlyMessageCount (snd r) = snd d
  /\ EveResponse.visualType (fst r) = Some (snd (fst d))
  /\ (Js.truthyOpt (fst (fst d)) && endpointMissing ep = true ->
      EveResponse.visualPrompt (fst r) = None
      /\ EveResponse.text (fst r)
         = (stripDirectives (Js.orElse reply "") ++ apology)%string)
  /\ (Js.truthyOpt (fst (fst d)) && endpointMissing ep = false ->
      EveResponse.visualPrompt (fst r) = fst (fst d)
      /\ EveResponse.text (fst r) = stripDirectives (Js.orElse reply "")).
Proof.
  intros H r d. subst r.
  rewrite (send_chat_reply B _ _ _ _ _ _ _ _ _ _ H).
  unfold onReply. cbn [nextRequest snd textOnlyMessageCount].
  rewrite ensureSession_count. fold d.
  destruct d as [[vp vt] n]. cbn [fst snd].
  destruct (Js.truthyOpt vp && endpointMissing ep); simpl;
    repeat split; intros; try discriminate; reflexivity.
Qed.

Lemma orElse_truthy (o : option string) (d : string) :
  Js.truthy d = true -> Js.truthy (Js.orElse o d) = true.
Proof.
  intros H. unfold Js.orElse. destruct o as [s|]; [|exact H].
  destruct (Js.truthy s) eqn:E; [exact E | exact H].
Qed.

(** X11: with image generation off, a reply of the chat never gives a visual
    prompt, whatever tags it holds and whatever the user wrote; the counter
    goes up by one and the tags are removed from the text all the same. *)
Theorem generation_off_never_prompts (B : Backend) message history att apiKey
        ep settings ctx lang st reply :
  (forall n c m, chat_sendMessage B n c m = inr reply) ->
  aiImageGeneration settings = false ->
  let r := sendMessageToEve B message history att false apiKey ep settings ctx
                            lang st in
  EveResponse.visualPrompt (fst r) = None
  /\ textOnlyMessageCount (snd r) = S (textOnlyMessageCount st)
  /\ EveResponse.text (fst r) = stripDirectives (Js.orElse reply "").
Proof.
  intros H Hoff r.
  destruct (send_reply_parts B message history att apiKey ep settings ctx lang
                             st reply H) as (Hc & _ & _ & Hv).
  fold r in Hc, Hv. rewrite Hoff in *. unfold directiveBranch in *.
  cbn [fst snd] in *. destruct (Hv eq_refl) as (Hv1 & Hv2). auto.
Qed.

Lemma generation_off_never_prompts_witness :
  aiImageGeneration (sampleSettings false) = false
  /\ EveResponse.visualPrompt (fst (firstSend false "Here [SELFIE: smiling]"))
     = None
  /\ textOnlyMessageCount (snd (firstSend false "Here [SELFIE: smiling]")) = 5
  /\ EveResponse.text (fst (firstSend false "Here [SELFIE: smiling]"))
     = stripDirectives "Here [SELFIE: smiling]".
Proof.
  split; [reflexivity|].
  apply (generation_off_never_prompts (replyingBackend "Here [SELFIE: smiling]")
           "hello" [sampleUserMessage] None (Some "AAA")
           (Some "https://render.example") (sampleSettings false) "" english
           freshService (Some "Here [SELFIE: smiling]")).
  - intros; reflexivity.
  - reflexivity.
Defined.

(** X12: with image generation on and an endpoint configured, a reply that
    holds a SELFIE tag gives a prompt of type selfie, the description of the
    tag or the default one, and sets the counter to 0, whether or not it also
    holds a SCENE tag, whatever the user wrote and whatever the counter. *)
Theorem selfie_tag_wins (B : Backend) message history att apiKey ep settings
        ctx lang st reply cap :
  (forall n c m, chat_sendMessage B n c m = inr reply) ->
  aiImageGeneration settings = true ->
  endpointMissing ep = false ->
  findTag "SELFIE" (Js.orElse reply "") = Some cap ->
  let r := sendMessageToEve B message history att false apiKey ep settings ctx
                            lang st in
  EveResponse.visualPrompt (fst r)
  = Some (Js.orElse cap "looking at the camera")
  /\ EveResponse.visualType (fst r) = Some selfie
  /\ textOnlyMessageCount (snd r) = 0.
Proof.
  intros H Hon Hep Hs r.
  destruct (send_reply_parts B message history att apiKey ep settings ctx lang
                             st reply H) as (Hc & Ht & _ & Hv).
  fold r in Hc, Ht, Hv. rewrite Hon in *. unfold directiveBranch in *.
  rewrite Hs in *. cbn [fst snd] in *. rewrite Hep, andb_false_r in Hv.
  destruct (Hv eq_refl) as (Hv1 & _). auto.
Qed.

Lemma selfie_tag_wins_witness :
  findTag "SELFIE" "[SCENE: a beach] and [SELFIE: smiling]" = Some (Some "smiling")
  /\ EveResponse.visualPrompt
       (fst (firstSend true "[SCENE: a beach] and [SELFIE: smiling]"))
     = Some "smiling"
  /\ EveResponse.visualType
       (fst (firstSend true "[SCENE: a beach] and [SELFIE: smiling]"))
     = Some selfie
  /\ textOnlyMessageCount
       (snd (firstSend true "[SCENE: a beach] and [SELFIE: smiling]")) = 0.
Proof.
  split; [reflexivity|].
  apply (selfie_tag_wins
           (replyingBackend "[SCENE: a beach] and [SELFIE: smiling]")
           "hello" [sampleUserMessage] None (Some "AAA")
           (Some "https://render.example") (sampleSettings true) "" english
           freshService (Some "[SCENE: a beach] and [SELFIE: smiling]")
           (Some "smiling")).
  - intros; reflexivity.
  - reflexivity.
  - reflexivity.
  - reflexivity.
Defined.

(** X13: when a directive fires and no endpoint is configured, the response
    carries no visual prompt, its text is the text for display followed by
    the apology, and the counter is set to 0 all the same. *)
Theorem missing_endpoint_apology (B : Backend) message history att apiKey ep
        settings ctx lang st reply :
  (forall n c m, chat_sendMessage B n c m = inr reply) ->
  endpointMissing ep = true ->
  let r := sendMessageToEve B message history att false apiKey ep settings ctx
                            lang st in
  let d := directiveBranch (aiImageGeneration settings) message
                           (Js.orElse reply "") (textOnlyMessageCount st) in
  fst (fst d) <> None ->
  EveResponse.visualPrompt (fst r) = None
  /\ EveResponse.text (fst r)
     = (stripDirectives (Js.orElse reply "") ++ apology)%string
  /\ textOnlyMessageCount (snd r) = 0.
Proof.
  intros H Hep r d Hfire.
  destruct (send_reply_parts B message history att apiKey ep settings ctx lang
                             st reply H) as (Hc & _ & Hv & _).
  fold r in Hc, Hv. fold d in Hc, Hv.
  destruct (directiveBranch_counter (aiImageGeneration settings) message
              (Js.orElse reply "") (textOnlyMessageCount st)) as (Hz & _).
  fold d in Hz.
  assert (T : Js.truthyOpt (fst (fst d)) = true).
  { subst d. unfold directiveBranch in *.
    destruct (aiImageGeneration settings); [|contradiction].
    destruct (findTag "SELFIE" _).
    - cbn [fst]. apply orElse_truthy. reflexivity.
    - destruct (findTag "SCENE" _); [|contradiction].
      destruct (isUserRequestingImage message || _); [|contradiction].
      cbn [fst]. apply orElse_truthy. reflexivity. }
  rewrite T, Hep in Hv. destruct (Hv eq_refl) as (Hv1 & Hv2).
  rewrite Hc, (Hz Hfire). auto.
Qed.

Lemma missing_endpoint_apology_witness :
  endpointMissing (Some "  ") = true
  /\ fst (fst (directiveBranch true "hello" "Look! [SCENE: a beach]" 4)) <> None
  /\ EveResponse.visualPrompt
       (fst (sendMessageToEve (replyingBackend "Look! [SCENE: a beach]") "hello"
               [sampleUserMessage] None false (Some "AAA") (Some "  ")
               (sampleSettings true) "" english freshService)) = None.
Proof.
  split; [reflexivity|]. split; [discriminate|].
  apply (missing_endpoint_apology (replyingBackend "Look! [SCENE: a beach]")
           "hello" [sampleUserMessage] None (Some "AAA") (Some "  ")
           (sampleSettings true) "" english freshService
           (Some "Look! [SCENE: a beach]")).
  - intros; reflexivity.
  - reflexivity.
  - discriminate.
Defined.

(* ------------------------------------------------------------------ *)
(** ** The send and the state of the module *)

Section SendState.

Variable B : Backend.

Lemma rephrase_keeps um k ctx ty st :
  let st' := snd (rephrasePromptForGradio B um k ctx ty st) in
  currentLanguage st' = currentLanguage st /\ requests st' = S (requests st).
Proof.
  unfold rephrasePromptForGradio. simpl.
  destruct (models_generateText B _ _ _); simpl; auto.
Qed.

Lemma gradio_keeps prompt ep settings st :
  let st' := snd (generateWithGradio B prompt ep settings st) in
  currentLanguage st' = currentLanguage st.
Proof.
  unfold generateWithGradio.
  destruct ep as [e|]; [|reflexivity].
  destruct (endpointMissing (Some e)); [reflexivity|]. simpl.
  destruct (gradio_predict B _ _ _ _) as [t|data]; [reflexivity|].
  destruct (firstImage data); reflexivity.
Qed.

Lemma onReply_language message resultText ep settings st :
  currentLanguage (snd (onReply message resultText ep settings st))
  = currentLanguage st.
Proof.
  unfold onReply.
  destruct (directiveBranch _ _ _ _) as [[vp vt] n].
  destruct (Js.truthyOpt vp && endpointMissing ep); reflexivity.
Qed.

Lemma onSendError_parts (e : Thrown) (st : Service) :
  let r := onSendError e st in
  EveResponse.image (fst r) = None
  /\ EveResponse.visualPrompt (fst r) = None
  /\ textOnlyMessageCount (snd r) = textOnlyMessageCount st
  /\ requests (snd r) = requests st.
Proof.
  unfold onSendError. destruct (classify (getErrorMessage e)). repeat split.
Qed.

Lemma ensureSession_fresh history apiKey settings lang st :
  sessionStale lang (getApiKey B apiKey)
               (ensureSession B history apiKey settings lang st) = false.
Proof.
  unfold ensureSession.
  destruct (sessionStale lang (getApiKey B apiKey) st) eqn:E; [|exact E].
  unfold startChatWithHistory, initializeChat, sessionStale. simpl.
  rewrite String.eqb_refl. destruct lang; reflexivity.
Qed.

Lemma sessionStale_same lang k (st st' : Service) :
  chatSession st' = chatSession st ->
  currentLanguage st' = currentLanguage st ->
  currentApiKey st' = currentApiKey st ->
  sessionStale lang k st' = sessionStale lang k st.
Proof. unfold sessionStale. intros -> -> ->. reflexivity. Qed.

Lemma send_ok_language message history att force apiKey ep settings ctx lang
      st :
  let r := sendMessageToEve B message history att force apiKey ep settings ctx
                            lang st in
  flag (EveResponse.isError (fst r)) = false ->
  currentLanguage (snd r)
  = currentLanguage (ensureSession B history apiKey settings lang st).
Proof.
  unfold sendMessageToEve.
  set (st1 := ensureSession B history apiKey settings lang st).
  destruct (Js.truthyOpt att && force).
  - simpl. destruct (models_generateImage B _ _ _) as [e|parts].
    + intros H. destruct (onSendError_state e (snd (nextRequest st1))) as (X & _).
      unfold nextRequest in X. simpl in X, H. congruence.
    + reflexivity.
  - destruct (negb (Js.truthyOpt att) && force).
    + pose proof (rephrase_keeps message apiKey (Some ctx) selfie st1) as (R & _).
      destruct (rephrasePromptForGradio B message apiKey (Some ctx) selfie st1)
        as [enh st2].
      pose proof (gradio_keeps (enh ++ IMAGE_QUALITY_SUFFIX)%string ep settings
                               st2) as G.
      destruct (generateWithGradio B _ ep settings st2) as [[m|url] st3].
      * intros H. destruct (onSendError_state (ThrownError m) st3) as (X & _).
        simpl in H. congruence.
      * simpl in *. intros _. congruence.
    + destruct (ensureSession_some B history apiKey settings lang st) as (c & Ec).
      fold st1 in Ec. rewrite Ec. rewrite Ec. simpl.
      destruct (chat_sendMessage B _ _ _) as [e|r].
      * intros H. destruct (onSendError_state e (snd (nextRequest st1))) as (X & _).
        unfold nextRequest in X. simpl in X, H. congruence.
      * intros _. rewrite onReply_language. reflexivity.
Qed.

Lemma send_error_counter message history att force apiKey ep settings ctx lang
      st :
  let r := sendMessageToEve B message history att force apiKey ep settings ctx
                            lang st in
  flag (EveResponse.isError (fst r)) = true ->
  textOnlyMessageCount (snd r) = textOnlyMessageCount st
  /\ EveResponse.image (fst r) = None
  /\ EveResponse.visualPrompt (fst r) = None.
Proof.
  intros r H.
  destruct (send_error_from_catch B _ _ _ _ _ _ _ _ _ _ H) as (e & st0 & E).
  destruct (onSendError_parts e st0) as (I & V & N & _).
  subst r. rewrite E. split; [|split; assumption].
  rewrite N.
  (* the state the catch block received has the counter of the start *)
  revert E. unfold sendMessageToEve.
  pose proof (ensureSession_count B history apiKey settings lang st) as C.
  set (st1 := ensureSession B history apiKey settings lang st) in *.
  assert (K : forall e' s', onSendError e' s' = onSendError e st0 ->
                            textOnlyMessageCount s' = textOnlyMessageCount st0).
  { intros e' s' X. apply (f_equal (fun p => textOnlyMessageCount (snd p))) in X.
    destruct (onSendError_parts e' s') as (_ & _ & N' & _).
    simpl in X. rewrite N', N in X. exact X. }
  destruct (Js.truthyOpt att && force).
  - simpl. destruct (models_generateImage B _ _ _) as [e'|parts].
    + intros X. apply K in X. simpl in X. congruence.
    + intros X. apply (f_equal (fun p => EveResponse.isError (fst p))) in X.
      simpl in X. rewrite processImageResponse_ok in X.
      destruct (onSendError_state e st0) as (F & _). rewrite <- X in F.
      discriminate.
  - destruct (negb (Js.truthyOpt att) && force).
    + pose proof (rephrase_state B message apiKey (Some ctx) selfie st1)
        as (_ & _ & R).
      destruct (rephrasePromptForGradio B message apiKey (Some ctx) selfie st1)
        as [enh st2].
      pose proof (gradio_state B (enh ++ IMAGE_QUALITY_SUFFIX)%string ep settings
                               st2) as (_ & _ & G).
      destruct (generateWithGradio B _ ep settings st2) as [[m|url] st3].
      * intros X. apply K in X. simpl in *. congruence.
      * intros X. apply (f_equal (fun p => EveResponse.isError (fst p))) in X.
        simpl in X. destruct (onSendError_state e st0) as (F & _).
        rewrite <- X in F. discriminate.
    + destruct (ensureSession_some B history apiKey settings lang st) as (c & Ec).
      fold st1 in Ec. rewrite Ec. rewrite Ec. simpl.
      destruct (chat_sendMessage B _ _ _) as [e'|r'].
      * intros X. apply K in X. simpl in X. congruence.
      * intros X. apply (f_equal (fun p => EveResponse.isError (fst p))) in X.
        rewrite onReply_ok in X. destruct (onSendError_state e st0) as (F & _).
        rewrite <- X in F. discriminate.
Qed.

End SendState.

(** X14: a send that returns an error response leaves the counter of
    text-only replies as it was, and its response carries neither image nor
    visual prompt. *)
Theorem failed_send_keeps_counter (B : Backend) message history att force
        apiKey ep settings ctx lang st :
  let r := sendMessageToEve B message history att force apiKey ep settings ctx
                            lang st in
  flag (EveResponse.isError (fst r)) = true ->
  textOnlyMessageCount (snd r) = textOnlyMessageCount st
  /\ EveResponse.image (fst r) = None
  /\ EveResponse.visualPrompt (fst r) = None.
Proof. apply send_error_counter. Qed.

Lemma failed_send_keeps_counter_witness :
  flag (EveResponse.isError (fst refusedSend)) = true
  /\ textOnlyMessageCount (snd refusedSend) = 4
  /\ EveResponse.image (fst refusedSend) = None
  /\ EveResponse.visualPrompt (fst refusedSend) = None.
Proof.
  split; [vm_compute; reflexivity|].
  apply (failed_send_keeps_counter quotaBackend "hello" [sampleUserMessage]
           None false (Some "AAA") (Some "https://render.example")
           (sampleSettings true) "" english freshService).
  vm_compute; reflexivity.
Defined.

(** X15: after a send that did not fail, a further send with the same key
    and the same language works with the handle the module holds: its first
    step changes nothing, whatever history and settings it is given. *)
Theorem session_is_reused (B : Backend) message history att force apiKey ep
        settings ctx lang st :
  let r := sendMessageToEve B message history att force apiKey ep settings ctx
                            lang st in
  flag (EveResponse.isError (fst r)) = false ->
  forall history' settings',
    ensureSession B history' apiKey settings' lang (snd r) = snd r.
Proof.
  intros r Hok history' settings'.
  destruct (send_ok_keeps_session B message history att force apiKey ep settings
                                  ctx lang st Hok) as (S1 & S2).
  pose proof (send_ok_language B message history att force apiKey ep settings
                               ctx lang st Hok) as S3.
  fold r in S1, S2, S3.
  unfold ensureSession.
  rewrite (sessionStale_same lang (getApiKey B apiKey) _ _ S1 S3 S2).
  rewrite ensureSession_fresh. reflexivity.
Qed.

Lemma session_is_reused_witness :
  flag (EveResponse.isError (fst (firstSend true "Hi there"))) = false
  /\ forall history' settings',
      ensureSession (replyingBackend "Hi there") history' (Some "AAA") settings'
                    english (snd (firstSend true "Hi there"))
      = snd (firstSend true "Hi there").
Proof.
  split; [vm_compute; reflexivity|].
  apply (session_is_reused (replyingBackend "Hi there") "hello"
           [sampleUserMessage] None false (Some "AAA")
           (Some "https://render.example") (sampleSettings true) "" english
           freshService).
  vm_compute; reflexivity.
Defined.

(** X16: image generation forced without attachment and without endpoint
    fails after the rephrasing request, before any request to the image
    backend: the response is an error of kind GENERAL carrying the message
    of the missing endpoint, and the module loses its chat handle. *)
Theorem forced_image_without_endpoint (B : Backend) message history att apiKey
        ep settings ctx lang st :
  Js.truthyOpt att = false ->
  endpointMissing ep = true ->
  let r := sendMessageToEve B message history att true apiKey ep settings ctx
                            lang st in
  EveResponse.isError (fst r) = Some true
  /\ EveResponse.errorType (fst r) = Some GENERAL
  /\ EveResponse.errorMessage (fst r) = Some "Gradio endpoint not configured."
  /\ EveResponse.text (fst r) = "Connection interrupted."
  /\ chatSession (snd r) = None
  /\ currentApiKey (snd r) = None
  /\ requests (snd r) = S (requests st).
Proof.
  intros Ha He r. subst r. unfold sendMessageToEve. rewrite Ha. cbn [andb negb].
  pose proof (rephrase_keeps B message apiKey (Some ctx) selfie
                (ensureSession B history apiKey settings lang st)) as (_ & Rq).
  destruct (rephrasePromptForGradio B message apiKey (Some ctx) selfie _)
    as [enh st2]. cbn [snd] in Rq.
  assert (G : generateWithGradio B (enh ++ IMAGE_QUALITY_SUFFIX)%string ep
                                 settings st2
              = (inl "Gradio endpoint not configured.", st2)).
  { unfold generateWithGradio. destruct ep as [e|]; [|reflexivity].
    rewrite He. reflexivity. }
  rewrite G.
  assert (Rq' : requests st2 = S (requests st)).
  { rewrite Rq. f_equal. unfold ensureSession.
    destruct (sessionStale _ _ _); reflexivity. }
  unfold onSendError. cbn [getErrorMessage].
  change (classify "Gradio endpoint not configured.")
    with ("Connection interrupted.", GENERAL).
  cbv beta iota. cbn [fst snd]. repeat split. exact Rq'.
Qed.

Lemma forced_image_without_endpoint_witness :
  Js.truthyOpt None = false
  /\ endpointMissing None = true
  /\ EveResponse.errorType
       (fst (sendMessageToEve (replyingBackend "x") "a cat" [sampleUserMessage]
               None true (Some "AAA") None (sampleSettings true) "" english
               freshService)) = Some GENERAL.
Proof.
  split; [reflexivity|]. split; [reflexivity|].
  apply (forced_image_without_endpoint (replyingBackend "x") "a cat"
           [sampleUserMessage] None (Some "AAA") None (sampleSettings true) ""
           english freshService); reflexivity.
Defined.

(* ------------------------------------------------------------------ *)
(** ** The rephrased text *)

Lemma removeFences_eq (s : string) :
  removeFences s
  = match Js.stripPrefix "```" s with
    | Some rest => removeFences rest
    | None =>
        match s with
        | EmptyString => EmptyString
        | String c s' => String c (removeFences s')
        end
    end.
Proof.
  destruct s as [|c1 s1]; [reflexivity|].
  destruct c1 as [[] [] [] [] [] [] [] []]; try reflexivity.
  destruct s1 as [|c2 s2]; [reflexivity|].
  destruct c2 as [[] [] [] [] [] [] [] []]; try reflexivity.
  destruct s2 as [|c3 s3]; [reflexivity|].
  destruct c3 as [[] [] [] [] [] [] [] []]; reflexivity.
Qed.

Lemma leadingTicks_eq (c : ascii) (t : string) :
  leadingTicks (String c t)
  = if Ascii.eqb c "`" then S (leadingTicks t) else 0.
Proof. destruct c as [[] [] [] [] [] [] [] []]; reflexivity. Qed.

Lemma leadingTicks_start (x : string) :
  leadingTicks x < 3 <-> Js.stripPrefix "```" x = None.
Proof.
  destruct x as [|c1 [|c2 [|c3 r]]]; cbn [Js.stripPrefix];
    rewrite ?leadingTicks_eq; rewrite ?(Ascii.eqb_sym "`").
  - simpl. split; [reflexivity | lia].
  - destruct (Ascii.eqb c1 "`"); simpl; split; try reflexivity; lia.
  - destruct (Ascii.eqb c1 "`"); [|simpl; split; [reflexivity | lia]].
    destruct (Ascii.eqb c2 "`"); simpl; split; try reflexivity; lia.
  - destruct (Ascii.eqb c1 "`"); [|simpl; split; [reflexivity | lia]].
    destruct (Ascii.eqb c2 "`"); [|simpl; split; [reflexivity | lia]].
    destruct (Ascii.eqb c3 "`"); simpl; split;
      try reflexivity; try discriminate; lia.
Qed.

Lemma stripPrefix_length (p s rest : string) :
  Js.stripPrefix p s = Some rest ->
  String.length s = String.length p + String.length rest.
Proof.
  intros H. apply stripPrefix_spec in H. subst s. apply string_length_app.
Qed.

Lemma removeFences_ticks (n : nat) :
  forall s, String.length s <= n ->
            leadingTicks (removeFences s) <= leadingTicks s.
Proof.
  induction n as [|n IH]; intros s Hn.
  - destruct s; [simpl; lia | simpl in Hn; lia].
  - rewrite removeFences_eq.
    destruct (Js.stripPrefix "```" s) as [rest|] eqn:E.
    + pose proof (stripPrefix_length _ _ _ E) as L. simpl in L.
      apply stripPrefix_spec in E. subst s. simpl.
      specialize (IH rest). lia.
    + destruct s as [|c s']; [simpl; lia|].
      rewrite !leadingTicks_eq. destruct (Ascii.eqb c "`"); [|lia].
      simpl in Hn. specialize (IH s'). lia.
Qed.

(** No fence is left, not even one made of the backticks around a fence
    that was removed. *)
Lemma removeFences_clean (n : nat) :
  forall s, String.length s <= n ->
            Js.includes (removeFences s) "```" = false.
Proof.
  induction n as [|n IH]; intros s Hn.
  - destruct s; [reflexivity | simpl in Hn; lia].
  - rewrite removeFences_eq.
    destruct (Js.stripPrefix "```" s) as [rest|] eqn:E.
    + pose proof (stripPrefix_length _ _ _ E) as L. simpl in L.
      apply IH. lia.
    + destruct s as [|c s']; [reflexivity|].
      cbn [Js.includes]. simpl in Hn. rewrite (IH s') by lia.
      assert (T : leadingTicks (String c (removeFences s')) < 3).
      { apply leadingTicks_start in E. rewrite leadingTicks_eq in *.
        destruct (Ascii.eqb c "`"); [|lia].
        pose proof (removeFences_ticks n s'). lia. }
      apply leadingTicks_start in T. unfold Js.startsWith. rewrite T.
      reflexivity.
Qed.

Lemma removeFences_allChars (f : ascii -> bool) (n : nat) :
  forall s, String.length s <= n -> allChars f s = true ->
            allChars f (removeFences s) = true.
Proof.
  induction n as [|n IH]; intros s Hn H.
  - destruct s; [reflexivity | simpl in Hn; lia].
  - rewrite removeFences_eq.
    destruct (Js.stripPrefix "```" s) as [rest|] eqn:E.
    + pose proof (stripPrefix_length _ _ _ E) as L. simpl in L.
      apply stripPrefix_spec in E. subst s.
      rewrite allChars_app in H. apply andb_true_iff in H as [_ H].
      apply IH; [lia | exact H].
    + destruct s as [|c s']; [reflexivity|].
      simpl in *. apply andb_true_iff in H as [Hc H].
      rewrite Hc, IH by (lia || assumption). reflexivity.
Qed.

Lemma newlinesToSpaces_noLF (s : string) :
  allChars (fun c => negb (Ascii.eqb c Js.LF)) (newlinesToSpaces s) = true.
Proof.
  induction s as [|c s IH]; [reflexivity|].
  simpl. rewrite IH. destruct (Ascii.eqb c Js.LF) eqn:E.
  - reflexivity.
  - rewrite E. reflexivity.
Qed.

Lemma trimStart_suffix (s : string) :
  exists a, s = (a ++ Js.trimStart s)%string.
Proof.
  induction s as [|c s (a & E)]; [exists ""%string; reflexivity|].
  simpl. destruct (Js.isWhiteSpace c).
  - exists (String c a). simpl. congruence.
  - exists ""%string. reflexivity.
Qed.

Lemma trimEnd_prefix (s : string) :
  exists b, s = (Js.trimEnd s ++ b)%string.
Proof.
  induction s as [|c s (b & E)]; [exists ""%string; reflexivity|].
  simpl. destruct (Js.trimEnd s) as [|d t] eqn:T.
  - destruct (Js.isWhiteSpace c).
    + exists (String c s). reflexivity.
    + exists s. reflexivity.
  - exists b. simpl in *. congruence.
Qed.

Lemma includes_trim (s p : string) :
  Js.includes s p = false -> Js.includes (Js.trim s) p = false.
Proof.
  intros H. destruct (Js.includes (Js.trim s) p) eqn:E; [|reflexivity].
  apply includes_spec in E as (a & c & E).
  destruct (trimStart_suffix s) as (x & Ex).
  destruct (trimEnd_prefix (Js.trimStart s)) as (y & Ey).
  unfold Js.trim in E. rewrite E in Ey. rewrite Ey in Ex.
  assert (Js.includes s p = true).
  { apply includes_spec. exists (x ++ a)%string, (c ++ y)%string.
    rewrite Ex. rewrite !append_assoc. reflexivity. }
  congruence.
Qed.

Lemma cleanRephrased_clean (responseText : option string) :
  5 < String.length (cleanRephrased responseText)
  /\ allChars (fun c => negb (Ascii.eqb c Js.LF)) (cleanRephrased responseText)
     = true
  /\ Js.includes (cleanRephrased responseText) "```" = false.
Proof.
  unfold cleanRephrased.
  set (body := match option_map Js.trim responseText with
               | Some r => if Js.truthy r then newlinesToSpaces (stripEcho r)
                           else ""%string
               | None => ""%string
               end).
  assert (Hb : allChars (fun c => negb (Ascii.eqb c Js.LF)) body = true).
  { subst body. destruct (option_map Js.trim responseText) as [r|];
      [|reflexivity].
    destruct (Js.truthy r); [apply newlinesToSpaces_noLF | reflexivity]. }
  destruct (Js.truthy (Js.trim (removeFences body))
            && (5 <? String.length (Js.trim (removeFences body)))) eqn:E.
  - apply andb_true_iff in E as [_ E]. apply Nat.ltb_lt in E.
    split; [exact E|]. split.
    + apply allChars_trim. eapply removeFences_allChars; eauto.
    + apply includes_trim. eapply removeFences_clean; eauto.
  - split; [simpl; lia|]. split; reflexivity.
Qed.

(** X17: whatever the text backend answers, and also when its request
    fails, the text [rephrasePromptForGradio] returns is longer than 5
    characters and holds neither a line feed nor a fence of three
    backticks. *)
Theorem rephrased_text_is_clean (B : Backend) userMessage apiKey ctx type st :
  let p := fst (rephrasePromptForGradio B userMessage apiKey ctx type st) in
  5 < String.length p
  /\ allChars (fun c => negb (Ascii.eqb c Js.LF)) p = true
  /\ Js.includes p "```" = false.
Proof.
  unfold rephrasePromptForGradio. cbn [nextRequest].
  destruct (models_generateText B _ _ _) as [e|t]; cbn [fst].
  - split; [simpl; lia|]. split; reflexivity.
  - apply cleanRephrased_clean.
Qed.

(* ------------------------------------------------------------------ *)
(** ** The image of a response, read back as an attachment *)

Lemma processImageParts_app (l1 l2 : list ResponsePart) :
  forall i t,
    processImageParts (l1 ++ l2) i t
    = processImageParts l2 (fst (processImageParts l1 i t))
                        (snd (processImageParts l1 i t)).
Proof.
  induction l1 as [|p l1 IH]; intros i t; [reflexivity|].
  destruct p; simpl; apply IH.
Qed.

Lemma processImageParts_no_inline (l : list ResponsePart) :
  forallb (fun p => match p with RInline _ _ => false | _ => true end) l = true ->
  forall i t, fst (processImageParts l i t) = i.
Proof.
  induction l as [|p l IH]; intros H i t; [reflexivity|].
  simpl in H. apply andb_true_iff in H as [Hp H].
  destruct p; [discriminate| |]; simpl; apply IH; exact H.
Qed.

(** X18: the image of a response is the last inline part of the answer,
    encoded with its type, image/png when it has none; for a type image/w,
    [w] made of word characters, and a base64 payload, decoding that image as
    an attachment gives the type and the payload back. *)
Theorem response_image_roundtrip (pre post : list ResponsePart)
        (mt : option string) (d w fallbackText : string) :
  forallb (fun p => match p with RInline _ _ => false | _ => true end) post
  = true ->
  Js.orElse mt "image/png" = ("image/" ++ w)%string ->
  allChars Js.isWordChar w = true -> w <> ""%string ->
  allChars isBase64Char d = true -> d <> ""%string ->
  let r := processImageResponse (pre ++ RInline mt d :: post) fallbackText in
  EveResponse.image r = Some (dataUrl ("image/" ++ w) d)
  /\ imageParts (EveResponse.image r) = [InlineData ("image/" ++ w) d].
Proof.
  intros Hpost Hmt Hw Nw Hd Nd r.
  assert (E : EveResponse.image r = Some (dataUrl ("image/" ++ w) d)).
  { subst r. unfold processImageResponse.
    rewrite processImageParts_app. cbn [processImageParts].
    rewrite Hmt.
    match goal with
    | |- context [processImageParts post ?i ?t] =>
        pose proof (processImageParts_no_inline post Hpost i t) as F;
        destruct (processImageParts post i t) as [i' t']
    end.
    cbn [fst] in F. subst i'. reflexivity. }
  split; [exact E|]. rewrite E. apply word_mime_roundtrips; assumption.
Qed.

Lemma response_image_roundtrip_witness :
  imageParts
    (EveResponse.image
       (processImageResponse [RText "done"; RInline None "iVBORw0KGgo="; ROther]
                             "I've evolved the visual."))
  = [InlineData "image/png" "iVBORw0KGgo="].
Proof.
  apply (response_image_roundtrip [RText "done"] [ROther] None "iVBORw0KGgo="
           "png" "I've evolved the visual.");
    try reflexivity; discriminate.
Defined.

(* ------------------------------------------------------------------ *)
(** ** Clearing the history, sending a message, estimating the tokens *)



(** X20: [handleSendMessage] does nothing on a blank input without
    attachment, or while a dispatch runs; otherwise it appends the message of
    the user, as typed, then exactly one message of the assistant, and clears
    the composer. *)
Theorem send_message_turns (dateNow : nat -> string) (B : Backend)
        (captured : Captured) (c : Composer) (a : App) :
  let blocked :=
    (negb (Js.truthy (Js.trim (inputText c)))
     && negb (Js.truthyOpt (attachment c))) || isThinking c in
  exists res,
    handleSendMessage dateNow B captured c a = Some res
    /\ ((blocked = true /\ res = (c, a))
        \/ (blocked = false
            /\ exists userMsg reply,
                fst res = mkComposer "" None false false
                /\ messages (snd res) = messages a ++ [userMsg; reply]
                /\ id userMsg = dateNow (clockReads a)
                /\ role userMsg = user /\ text userMsg = inputText c
                /\ role reply = model)).
Proof.
  intros blocked. unfold handleSendMessage. fold blocked.
  destruct blocked.
  - eexists. split; [reflexivity|]. left. auto.
  - cbn [readClock].
    match goal with
    | |- context [processMessageSending dateNow captured ?s ?k ?x] =>
        destruct (rotationLoop_effects dateNow captured s k
                    (totalKeys captured) k 0 x)
          as (a' & m & R & Rm & Rr & _); [lia | lia |];
        unfold processMessageSending; rewrite R
    end.
    eexists. split; [reflexivity|]. right. split; [reflexivity|].
    eexists. exists m. cbn [fst snd]. split; [reflexivity|].
    rewrite Rm. cbn [messages setMessages]. rewrite <- app_assoc.
    split; [reflexivity|]. repeat split. exact Rr.
Qed.

Lemma totalChars_app (l1 l2 : list Message) :
  totalChars (l1 ++ l2) = totalChars l1 + totalChars l2.
Proof.
  unfold totalChars.
  assert (G : forall l n,
             fold_left (fun acc msg => acc + String.length (text msg)) l n
             = n + fold_left (fun acc msg => acc + String.length (text msg)) l 0).
  { induction l as [|m l IH]; intros n; simpl; [lia|].
    rewrite IH, (IH (String.length (text m))). lia. }
  rewrite fold_left_app, G. reflexivity.
Qed.

(** X21: the estimate of the tokens is within half a token of a quarter of
    the characters whenever it is not zero, never above it by more, and
    never goes down when a message is appended. *)
Theorem token_estimate_bounds (isLoaded : bool) (msgs : list Message)
        (m : Message) :
  let e := estimateTokens isLoaded msgs in
  4 * e <= totalChars msgs + 2
  /\ (e = 0 \/ totalChars msgs <= 4 * e + 1)
  /\ e <= estimateTokens isLoaded (msgs ++ [m]).
Proof.
  cbv zeta. unfold estimateTokens. rewrite length_app. simpl List.length.
  pose proof (Nat.div_mod_eq (totalChars msgs + 2) 4) as D.
  assert (U : (totalChars msgs + 2) mod 4 < 4)
    by (apply Nat.mod_upper_bound; discriminate).
  destruct isLoaded; cbn [andb].
  2:{ split; [lia|]. split; [left; reflexivity | lia]. }
  destruct (Nat.ltb_spec 1 (List.length msgs)).
  - destruct (Nat.ltb_spec 1 (List.length msgs + 1)); [|lia].
    split; [lia|]. split; [right; lia|].
    rewrite totalChars_app. apply Nat.Div0.div_le_mono. lia.
  - split; [lia|]. split; [left; reflexivity|]. lia.
Qed.

(* ------------------------------------------------------------------ *)
(** ** The absence reported on loading a session *)

From Stdlib Require Import ZArith.

Lemma append_not_empty (a b : string) :
  b <> ""%string -> (a ++ b)%string <> ""%string.
Proof. destruct a; simpl; [auto | discriminate]. Qed.

(** X22: for a difference of magnitude below 2^53 milliseconds, no absence
    is reported below eleven seconds (nor when the clock went backwards), one
    is reported from eleven seconds on; from one hour on, the report gives
    hours and minutes, the minutes below sixty, and the absence lies within
    the minute it names. *)
Theorem away_duration_reports (diffMs : Z) :
  (- 2 ^ 53 < diffMs < 2 ^ 53)%Z ->
  exists s,
    awayDuration diffMs = Some s
    /\ (s = ""%string <-> (diffMs < 11000)%Z)
    /\ ((diffMs < 3600000)%Z
        \/ exists h m,
            s = (showZ h ++ " hours and " ++ showZ m ++ " minutes")%string
            /\ (1 <= h)%Z /\ (0 <= m < 60)%Z
            /\ (3600000 * h + 60000 * m <= diffMs
                < 3600000 * h + 60000 * m + 60000)%Z).
Proof.
  intros Hb. unfold awayDuration, safeInteger.
  replace (Z.of_nat 2) with 2%Z by reflexivity.
  replace (Z.of_nat 53) with 53%Z by reflexivity.
  replace (Z.of_nat 1000) with 1000%Z by reflexivity.
  replace (Z.of_nat 60) with 60%Z by reflexivity.
  replace (Z.of_nat 10) with 10%Z by reflexivity.
  cbv zeta.
  destruct (Z.ltb_spec (- 2 ^ 53) diffMs) as [_|]; [|lia].
  destruct (Z.ltb_spec diffMs (2 ^ 53)) as [_|]; [|lia].
  cbn [andb]. eexists. split; [reflexivity|].
  set (diffSec := (diffMs / 1000)%Z).
  set (diffMin := (diffSec / 60)%Z).
  set (diffHr := (diffMin / 60)%Z).
  set (rest := (diffMin mod 60)%Z).
  assert (Hs : (1000 * diffSec <= diffMs < 1000 * diffSec + 1000)%Z)
    by (subst diffSec; Z.to_euclidean_division_equations; lia).
  assert (Hm : (60 * diffMin <= diffSec < 60 * diffMin + 60)%Z)
    by (subst diffMin; Z.to_euclidean_division_equations; lia).
  assert (Hh : (diffMin = 60 * diffHr + rest /\ 0 <= rest < 60)%Z)
    by (subst diffHr rest; Z.to_euclidean_division_equations; lia).
  destruct (Z.ltb_spec 0 diffHr) as [H1|H1].
  - split.
    + split; [|lia]. intros E. exfalso. revert E.
      apply append_not_empty, append_not_empty, append_not_empty. discriminate.
    + right. exists diffHr, rest. split; [reflexivity|]. lia.
  - split; [|left; lia].
    destruct (Z.ltb_spec 0 diffMin) as [H2|H2].
    + split; [|lia]. intros E. exfalso. revert E.
      apply append_not_empty. discriminate.
    + destruct (Z.ltb_spec 10 diffSec) as [H3|H3].
      * split; [|lia]. intros E. exfalso. revert E.
        apply append_not_empty. discriminate.
      * split; [lia | reflexivity].
Qed.

Lemma away_duration_reports_witness :
  (- 2 ^ 53 < 7384000 < 2 ^ 53)%Z
  /\ exists s,
      awayDuration 7384000 = Some s
      /\ (s = ""%string <-> (7384000 < 11000)%Z)
      /\ ((7384000 < 3600000)%Z
          \/ exists h m,
              s = (showZ h ++ " hours and " ++ showZ m ++ " minutes")%string
              /\ (1 <= h)%Z /\ (0 <= m < 60)%Z
              /\ (3600000 * h + 60000 * m <= 7384000
                  < 3600000 * h + 60000 * m + 60000)%Z).
Proof.
  assert (H : (- 2 ^ 53 < 7384000 < 2 ^ 53)%Z) by (split; reflexivity).
  split; [exact H|]. apply (away_duration_reports 7384000 H).
Defined.
